(** * Presentera: thumbnail compositor and chart edit session

    A shallow embedding of
    - [frontend/src/utils/generateThumbnail.js] (module [Thumbnail]),
    - the [useLiveUpdates] hook of the chart data modal together with
      [ChartOptions.handleSaveData] (module [LiveSession]),
    - the numeric inputs of [TableRow.js] and [PieChartDataPoints.js]
      (module [NumericFields]).

    JavaScript numbers are represented by rationals; the browser, Konva and
    React are represented by the part of their state the sources touch. *)

From Stdlib Require Import QArith.
From stdpp Require Import gmap strings list fin_maps pretty.
Close Scope Q_scope.

(** ** JavaScript idioms shared by the sources *)

(** [a || d] on an optional number: [undefined], [0] fall back to [d]. *)
Definition num_or (o : option Q) (d : Q) : Q :=
  match o with
  | Some q => if Qeq_bool q 0 then d else q
  | None => d
  end.

(** [a || d] on an optional string: [undefined] and [''] fall back to [d]. *)
Definition str_or (o : option string) (d : string) : string :=
  match o with
  | Some s => if String.eqb s "" then d else s
  | None => d
  end.

(** Truthiness of an optional string and of an optional count. *)
Definition truthy_str (o : option string) : bool :=
  match o with
  | Some s => negb (String.eqb s "")
  | None => false
  end.

Definition truthy_nat (o : option nat) : bool :=
  match o with
  | Some (S _) => true
  | _ => false
  end.

Definition Qnat (n : nat) : Q := inject_Z (Z.of_nat n).

(** [Math.max] and [Math.min] on finite numbers. *)
Definition Math_max (a b : Q) : Q := if Qle_bool a b then b else a.
Definition Math_min (a b : Q) : Q := if Qle_bool a b then a else b.

(** Entries written to the browser console. *)
Inductive log_entry :=
| ConsoleWarn (msg : string)
| ConsoleError (msg : string)
| Uncaught (msg : string).

(** A cell of a value series: a number, or one of the two holes the
    components test for. *)
Inductive cell :=
| Num (q : Q)
| Undefined
| Null.

Record series := {
  s_name : string;
  s_values : list cell
}.

(** ** generateThumbnail.js *)
Module Thumbnail.

(** *** Slide model, as read by the compositor *)

Record element := {
  el_type : string;
  el_x : option Q;
  el_y : option Q;
  el_width : option Q;
  el_height : option Q;
  el_rotation : option Q;
  (* text *)
  el_content : option string;
  el_fontSize : option Q;
  el_fontFamily : option string;
  el_fontStyle : option string;
  el_color : option string;
  el_textAlign : option string;
  (* shape *)
  el_shapeType : option string;
  el_fillColor : option string;
  el_borderColor : option string;
  el_borderWidth : option Q;
  (* image *)
  el_src : string;
  (* chart: the chart payload is only handed to renderChartToImage *)
  el_chart : string;
  (* table *)
  el_rows : option nat;
  el_cols : option nat
}.

Record gradient := {
  g_type : option string;
  g_colors : option (list string)
}.

Record slide := {
  s_id : string;
  backgroundImage : option string;
  backgroundGradient : option gradient;
  backgroundColor : option string;
  elements : list element
}.

(** *** Konva nodes

    Each node carries the attributes the source passes to its constructor;
    [listening: false], [wrap: 'word'] and [verticalAlign: 'top'] are the
    same on every node of their kind and are left out. *)

Inductive fill_style :=
| FillColor (c : string)
| FillLinearGradient (x0 y0 x1 y1 : Q) (stops : list (Q * string))
| FillRadialGradient (cx cy r0 r1 : Q) (stops : list (Q * string)).

Inductive node :=
| KonvaImage (x y w h : Q) (image : string) (rotation : Q)
| KonvaRect (x y w h : Q) (fill : fill_style) (stroke : option string)
    (strokeWidth cornerRadius : option Q) (rotation : Q)
| KonvaCircle (x y radius : Q) (fill stroke : string)
    (strokeWidth rotation : Q)
| KonvaText (x y w h : Q) (text : string) (fontSize : Q)
    (fontFamily fontStyle fill align : string)
| KonvaLine (points : list Q) (stroke : string) (strokeWidth : Q).

(** The encoded image: Konva's [stage.toDataURL] is represented by the scene
    it rasterises together with the encoding options. *)
Record dataURL := {
  pixelRatio : Q;
  mimeType : string;
  scene : list node
}.

(** *** The browser as seen by one render call *)

(** [body] lists the containers attached to [document.body]; [stages] the
    live Konva stages, named by their container. *)
Record world := {
  body : list nat;
  stages : list nat;
  console : list log_entry;
  fresh : nat
}.

Definition empty_world : world :=
  {| body := []; stages := []; console := []; fresh := 0 |}.

(** Outcome of resource resolution: which image references decode, and what
    the chart rasteriser returns for a chart element. *)
Record env := {
  imageLoads : string → bool;
  renderChartToImage : element → option string
}.

(** *** A state-and-exception monad for the [async] bodies *)

Inductive result (A : Type) :=
| Ok (a : A)
| Throw (error : string).
Arguments Ok {A} a.
Arguments Throw {A} error.

Definition M (A : Type) : Type := world → result A * world.

Definition ret {A} (a : A) : M A := fun w => (Ok a, w).
Definition throw {A} (error : string) : M A := fun w => (Throw error, w).
Definition bind {A B} (m : M A) (k : A → M B) : M B :=
  fun w => match m w with
           | (Ok a, w') => k a w'
           | (Throw error, w') => (Throw error, w')
           end.
Definition try_catch {A} (m : M A) (handler : string → M A) : M A :=
  fun w => match m w with
           | (Ok a, w') => (Ok a, w')
           | (Throw error, w') => handler error w'
           end.

#[global] Instance M_ret : MRet M := @ret.
#[global] Instance M_bind : MBind M := λ A B k m, bind m k.

(** DOM and Konva primitives. *)
Definition createContainer : M nat :=
  fun w => (Ok (fresh w),
            {| body := body w; stages := stages w; console := console w;
               fresh := S (fresh w) |}).

Definition appendChild (c : nat) : M unit :=
  fun w => (Ok tt,
            {| body := body w ++ [c]; stages := stages w;
               console := console w; fresh := fresh w |}).

Definition removeChild (c : nat) : M unit :=
  fun w => (Ok tt,
            {| body := filter (λ c', c' ≠ c) (body w); stages := stages w;
               console := console w; fresh := fresh w |}).

Definition newStage (c : nat) : M nat :=
  fun w => (Ok c,
            {| body := body w; stages := stages w ++ [c];
               console := console w; fresh := fresh w |}).

Definition stage_destroy (st : nat) : M unit :=
  fun w => (Ok tt,
            {| body := body w; stages := filter (λ st', st' ≠ st) (stages w);
               console := console w; fresh := fresh w |}).

(** [layer] is a local object of the call: [layer.add] appends to its
    children, and [stage.toDataURL] rasterises them in that order. *)
Definition layer_add (layer : list node) (n : node) : list node :=
  layer ++ [n].

Definition toDataURL (st : nat) (layer : list node) : M dataURL :=
  mret {| pixelRatio := (1 # 4)%Q; mimeType := "image/png";
          scene := layer |}.

Definition console_warn (msg : string) : M unit :=
  fun w => (Ok tt,
            {| body := body w; stages := stages w;
               console := console w ++ [ConsoleWarn msg]; fresh := fresh w |}).

Definition console_error (msg : string) : M unit :=
  fun w => (Ok tt,
            {| body := body w; stages := stages w;
               console := console w ++ [ConsoleError msg];
               fresh := fresh w |}).

(** [await new Promise(...)] around an [Image] whose [src] is set: [true]
    when [onload] fires, [false] when [onerror] fires. *)
Definition imageSettles (E : env) (src : string) : M bool :=
  mret (imageLoads E src).

(** *** generateSlideThumbnail *)

Definition colorStops (colors : list string) : list (Q * string) :=
  imap (λ i color,
        (if decide (1 < length colors)
         then (Qnat i / Qnat (length colors - 1))%Q else 0%Q, color))
       colors.

Definition renderBackground (E : env) (s : slide) (layer : list node)
  : M (list node) :=
  if truthy_str (backgroundImage s) then
    ok ← imageSettles E (default "" (backgroundImage s));
    if ok : bool
    then mret (layer_add layer
                 (KonvaImage 0 0 1024 576 (default "" (backgroundImage s)) 0))
    else throw "background image failed to load"
  else match backgroundGradient s with
  | Some g =>
      let gradientType := str_or (g_type g) "linear" in
      let colors := default ["#ffffff"] (g_colors g) in
      let fill :=
        if String.eqb gradientType "radial"
        then FillRadialGradient 512 288 0 (Math_max 1024 576) (colorStops colors)
        else FillLinearGradient 0 0 1024 576 (colorStops colors) in
      mret (layer_add layer (KonvaRect 0 0 1024 576 fill None None None 0))
  | None =>
      if truthy_str (backgroundColor s) then
        mret (layer_add layer
                (KonvaRect 0 0 1024 576
                   (FillColor (str_or (backgroundColor s) "#ffffff"))
                   None None None 0))
      else
        mret (layer_add layer
                (KonvaRect 0 0 1024 576 (FillColor "#ffffff")
                   None None None 0))
  end.

Definition renderText (el : element) : node :=
  KonvaText (num_or (el_x el) 0) (num_or (el_y el) 0)
    (num_or (el_width el) 200) (num_or (el_height el) 50)
    (str_or (el_content el) "") (num_or (el_fontSize el) 16)
    (str_or (el_fontFamily el) "Arial") (str_or (el_fontStyle el) "normal")
    (str_or (el_color el) "#000000") (str_or (el_textAlign el) "left").

Definition renderShape (el : element) : node :=
  let shapeType := str_or (el_shapeType el) "rectangle" in
  if String.eqb shapeType "circle" then
    KonvaCircle
      (num_or (el_x el) 0 + num_or (el_width el) 100 / 2)%Q
      (num_or (el_y el) 0 + num_or (el_height el) 100 / 2)%Q
      (Math_min (num_or (el_width el) 100 / 2) (num_or (el_height el) 100 / 2))%Q
      (str_or (el_fillColor el) "#2d9cdb")
      (str_or (el_borderColor el) "transparent")
      (num_or (el_borderWidth el) 0)
      (num_or (el_rotation el) 0)
  else
    KonvaRect (num_or (el_x el) 0) (num_or (el_y el) 0)
      (num_or (el_width el) 100) (num_or (el_height el) 100)
      (FillColor (str_or (el_fillColor el) "#2d9cdb"))
      (Some (str_or (el_borderColor el) "transparent"))
      (Some (num_or (el_borderWidth el) 0))
      (Some (if String.eqb shapeType "rounded" then 10 else 0)%Q)
      (num_or (el_rotation el) 0).

Definition elementImage (el : element) (w h : Q) (image : string) : node :=
  KonvaImage (num_or (el_x el) 0) (num_or (el_y el) 0)
    (num_or (el_width el) w) (num_or (el_height el) h) image
    (num_or (el_rotation el) 0).

Definition chartPlaceholder (el : element) : node :=
  KonvaRect (num_or (el_x el) 0) (num_or (el_y el) 0)
    (num_or (el_width el) 360) (num_or (el_height el) 240)
    (FillColor "#f0f0f0") (Some "#ddd") (Some 1%Q) None 0.

Definition tableRect (el : element) : node :=
  KonvaRect (num_or (el_x el) 0) (num_or (el_y el) 0)
    (num_or (el_width el) 400) (num_or (el_height el) 200)
    (FillColor "#ffffff") (Some "#ddd") (Some 1%Q) None 0.

Definition rowLine (el : element) (cellHeight : Q) (i : nat) : node :=
  KonvaLine [ num_or (el_x el) 0;
              (num_or (el_y el) 0 + Qnat i * cellHeight)%Q;
              (num_or (el_x el) 0 + num_or (el_width el) 400)%Q;
              (num_or (el_y el) 0 + Qnat i * cellHeight)%Q ] "#ddd" 1.

Definition colLine (el : element) (cellWidth : Q) (i : nat) : node :=
  KonvaLine [ (num_or (el_x el) 0 + Qnat i * cellWidth)%Q;
              num_or (el_y el) 0;
              (num_or (el_x el) 0 + Qnat i * cellWidth)%Q;
              (num_or (el_y el) 0 + num_or (el_height el) 200)%Q ] "#ddd" 1.

(** The grid lines of a table: [for (let i = 1; i < rows; i++)], then
    the same over the columns. *)
Definition tableGrid (el : element) : list node :=
  if truthy_nat (el_rows el) && truthy_nat (el_cols el) then
    let rows := default 0 (el_rows el) in
    let cols := default 0 (el_cols el) in
    let cellWidth := (num_or (el_width el) 400 / Qnat cols)%Q in
    let cellHeight := (num_or (el_height el) 200 / Qnat rows)%Q in
    map (rowLine el cellHeight) (seq 1 (rows - 1)) ++
    map (colLine el cellWidth) (seq 1 (cols - 1))
  else [].

(** The body of the per-element [try] block. *)
Definition renderElement (E : env) (el : element) (layer : list node)
  : M (list node) :=
  if String.eqb (el_type el) "text" then
    mret (layer_add layer (renderText el))
  else if String.eqb (el_type el) "shape" then
    mret (layer_add layer (renderShape el))
  else if String.eqb (el_type el) "image" then
    ok ← imageSettles E (el_src el);
    if ok : bool
    then mret (layer_add layer (elementImage el 200 200 (el_src el)))
    else console_warn "Failed to load image for thumbnail:";; mret layer
  else if String.eqb (el_type el) "chart" then
    try_catch
      (match renderChartToImage E el with
       | Some chartImageData =>
           ok ← imageSettles E chartImageData;
           if ok : bool
           then mret (layer_add layer (elementImage el 360 240 chartImageData))
           else throw "chart image failed to load"
       | None => throw "renderChartToImage rejected"
       end)
      (λ error,
         console_warn "Failed to render chart for thumbnail:";;
         mret (layer_add layer (chartPlaceholder el)))
  else if String.eqb (el_type el) "table" then
    mret (layer_add layer (tableRect el) ++ tableGrid el)
  else mret layer.

(** [for (const element of slide.elements) { try { ... } catch { ... } }] *)
Fixpoint renderElements (E : env) (els : list element) (layer : list node)
  : M (list node) :=
  match els with
  | [] => mret layer
  | el :: rest =>
      layer' ← try_catch (renderElement E el layer)
                 (λ error,
                    console_warn "Error rendering element for thumbnail:";;
                    mret layer);
      renderElements E rest layer'
  end.

(** The promise resolves with [Ok] and rejects with [Throw]. [layer.draw()]
    and the 100ms pause before [toDataURL] change nothing that is
    represented here. *)
Definition generateSlideThumbnail (E : env) (s : slide) : M dataURL :=
  try_catch
    (container ← createContainer;
     appendChild container;;
     stage ← newStage container;
     layer ← renderBackground E s [];
     layer ← renderElements E (elements s) layer;
     url ← toDataURL stage layer;
     stage_destroy stage;;
     removeChild container;;
     mret url)
    (λ error,
       console_error "Error generating thumbnail:";;
       throw error).

(** *** generateAllSlideThumbnails *)

Fixpoint thumbnailLoop (E : env) (slides : list slide)
  (thumbnails : list (string * dataURL)) : M (list (string * dataURL)) :=
  match slides with
  | [] => mret thumbnails
  | s :: rest =>
      thumbnails' ←
        try_catch
          (thumbnail ← generateSlideThumbnail E s;
           mret (thumbnails ++ [(s_id s, thumbnail)]))
          (λ error,
             console_error "Error generating thumbnail for slide";;
             mret thumbnails);
      thumbnailLoop E rest thumbnails'
  end.

Definition generateAllSlideThumbnails (E : env) (slides : list slide)
  : M (list (string * dataURL)) :=
  thumbnailLoop E slides [].

(** *** What one element and the background add to the layer *)

(** The nodes [renderElement] appends for [el], read off the embedding. *)
Definition contribution (E : env) (el : element) : list node :=
  match renderElement E el [] empty_world with
  | (Ok layer, _) => layer
  | (Throw _, _) => []
  end.

(** The layer after the background step, when that step does not throw. *)
Definition backgroundLayer (E : env) (s : slide) : option (list node) :=
  match renderBackground E s [] empty_world with
  | (Ok layer, _) => Some layer
  | (Throw _, _) => None
  end.

(** The thumbnail of a slide rendered on its own, when the call resolves. *)
Definition thumbnailOf (E : env) (s : slide) : option (string * dataURL) :=
  match generateSlideThumbnail E s empty_world with
  | (Ok url, _) => Some (s_id s, url)
  | (Throw _, _) => None
  end.

(** Elements whose resource does not resolve. *)
Definition imageFails (E : env) (el : element) : bool :=
  String.eqb (el_type el) "image" && negb (imageLoads E (el_src el)).

Definition chartFails (E : env) (el : element) : bool :=
  String.eqb (el_type el) "chart" &&
  match renderChartToImage E el with
  | Some chartImageData => negb (imageLoads E chartImageData)
  | None => true
  end.

Definition resourceFails (E : env) (el : element) : bool :=
  imageFails E el || chartFails E el.

(** The five element kinds of the slide model. *)
Definition knownType (el : element) : bool :=
  bool_decide (el_type el ∈ ["text"; "shape"; "image"; "chart"; "table"]).

Definition nonEmpty {A} (l : list A) : bool :=
  match l with [] => false | _ => true end.

(** The per-element groups of nodes present in the composite. *)
Definition elementLayers (E : env) (els : list element) : list (list node) :=
  filter (λ l, nonEmpty l = true) (map (contribution E) els).

(** The slide loads its background image, if it names one. *)
Definition backgroundResolves (E : env) (s : slide) : bool :=
  negb (truthy_str (backgroundImage s)) ||
  imageLoads E (default "" (backgroundImage s)).

(** [w'] differs from [w] at most in its console. *)
Definition sameDom (w w' : world) : Prop :=
  body w' = body w ∧ stages w' = stages w ∧ fresh w' = fresh w.

(** *** Sample slides *)

Definition sampleElement (ty src : string) (rows cols : option nat)
  : element :=
  {| el_type := ty; el_x := Some 10%Q; el_y := Some 20%Q;
     el_width := None; el_height := None; el_rotation := None;
     el_content := Some "Title"; el_fontSize := None; el_fontFamily := None;
     el_fontStyle := None; el_color := None; el_textAlign := None;
     el_shapeType := None; el_fillColor := None; el_borderColor := None;
     el_borderWidth := None; el_src := src; el_chart := "bar";
     el_rows := rows; el_cols := cols |}.

Definition sampleSlide (id : string) (bg : option string)
  (els : list element) : slide :=
  {| s_id := id; backgroundImage := bg; backgroundGradient := None;
     backgroundColor := Some "#112233"; elements := els |}.

(** Only [ok.png] decodes, and the chart rasteriser rejects. *)
Definition offlineEnv : env :=
  {| imageLoads := λ src, String.eqb src "ok.png";
     renderChartToImage := λ _, None |}.

Definition chartOnlySlide : slide :=
  sampleSlide "s1" None [sampleElement "chart" "" None None].

Definition brokenBackgroundSlide : slide :=
  sampleSlide "s3" (Some "missing.png") [sampleElement "text" "" None None].

Definition mixedSlide : slide :=
  sampleSlide "s2" (Some "ok.png")
    [ sampleElement "text" "" None None;
      sampleElement "image" "missing.png" None None;
      sampleElement "table" "" (Some 3) (Some 2);
      sampleElement "chart" "" None None;
      sampleElement "image" "ok.png" None None ].

Definition sampleDeck : list slide :=
  [ chartOnlySlide; mixedSlide; brokenBackgroundSlide;
    sampleSlide "s4" None []; sampleSlide "s5" (Some "ok.png") [] ].

End Thumbnail.

(** ** useLiveUpdates and ChartOptions.handleSaveData *)
Module LiveSession.

Record chartElement := {
  id : string;
  chartType : string
}.

(** [padChartData] (utils/dataProcessing) and [JSON.stringify] are used by
    the hook but defined elsewhere; the session is stated over them. *)
Class ChartData := {
  dataset : Type;
  padChartData :
    list string → list series → string → chartElement → dataset;
  JSON_stringify : dataset → string
}.

Section Session.
Context `{ChartData}.

Record props := {
  isOpen : bool;
  element : option chartElement;
  labels : list string;
  p_series : list series
}.

(** A pending [setTimeout] callback with the values its closure captured. *)
Record timer := {
  handle : nat;
  deadline : nat;
  t_labels : list string;
  t_series : list series;
  t_element : chartElement
}.

(** Calls made to the host's collaborators. [internal] is the
    [__internal] marker of the update, if any. *)
Inductive call :=
| PushSnapshot (selectedElement : chartElement)
| UpdateSlideElement (target : string) (updates : dataset)
    (internal : option string).

(** The host: whether the [pushSnapshot] prop is supplied, and which calls
    throw, given the calls made so far. *)
Record host := {
  pushSnapshot : bool;
  throws : list call → call → bool
}.

Record session := {
  (* refs of useLiveUpdates *)
  updateTimeoutRef : option nat;
  isInitialLoadRef : bool;
  initializedRef : bool;
  lastSavedDataRef : option string;
  (* React: whether the last run of the live effect returned its cleanup,
     and the props of the last render *)
  liveCleanup : bool;
  rendered : option props;
  (* ref of ChartOptions *)
  hasLiveSnapshotRef : bool;
  (* browser timers *)
  timers : list timer;
  nextHandle : nat;
  (* effects on the host, stamped with the time of the call *)
  calls : list (nat * call);
  console : list log_entry
}.

Definition initial : session :=
  {| updateTimeoutRef := None; isInitialLoadRef := true;
     initializedRef := false; lastSavedDataRef := None;
     liveCleanup := false; rendered := None; hasLiveSnapshotRef := false;
     timers := []; nextHandle := 1; calls := []; console := [] |}.

Definition set_refs (tm : option nat) (il ini : bool) (ls : option string)
  (st : session) : session :=
  {| updateTimeoutRef := tm; isInitialLoadRef := il; initializedRef := ini;
     lastSavedDataRef := ls; liveCleanup := liveCleanup st;
     rendered := rendered st; hasLiveSnapshotRef := hasLiveSnapshotRef st;
     timers := timers st; nextHandle := nextHandle st; calls := calls st;
     console := console st |}.

Definition set_lastSaved (ls : option string) (st : session) : session :=
  set_refs (updateTimeoutRef st) (isInitialLoadRef st) (initializedRef st)
    ls st.

Definition set_isInitialLoad (il : bool) (st : session) : session :=
  set_refs (updateTimeoutRef st) il (initializedRef st)
    (lastSavedDataRef st) st.

Definition set_timeoutRef (tm : option nat) (st : session) : session :=
  set_refs tm (isInitialLoadRef st) (initializedRef st)
    (lastSavedDataRef st) st.

Definition set_react (c : bool) (r : option props) (st : session)
  : session :=
  {| updateTimeoutRef := updateTimeoutRef st;
     isInitialLoadRef := isInitialLoadRef st;
     initializedRef := initializedRef st;
     lastSavedDataRef := lastSavedDataRef st; liveCleanup := c;
     rendered := r; hasLiveSnapshotRef := hasLiveSnapshotRef st;
     timers := timers st; nextHandle := nextHandle st; calls := calls st;
     console := console st |}.

Definition set_hasLiveSnapshot (b : bool) (st : session) : session :=
  {| updateTimeoutRef := updateTimeoutRef st;
     isInitialLoadRef := isInitialLoadRef st;
     initializedRef := initializedRef st;
     lastSavedDataRef := lastSavedDataRef st;
     liveCleanup := liveCleanup st; rendered := rendered st;
     hasLiveSnapshotRef := b; timers := timers st;
     nextHandle := nextHandle st; calls := calls st;
     console := console st |}.

Definition set_timers (l : list timer) (n : nat) (st : session) : session :=
  {| updateTimeoutRef := updateTimeoutRef st;
     isInitialLoadRef := isInitialLoadRef st;
     initializedRef := initializedRef st;
     lastSavedDataRef := lastSavedDataRef st;
     liveCleanup := liveCleanup st; rendered := rendered st;
     hasLiveSnapshotRef := hasLiveSnapshotRef st; timers := l;
     nextHandle := n; calls := calls st; console := console st |}.

Definition set_effects (c : list (nat * call)) (l : list log_entry)
  (st : session) : session :=
  {| updateTimeoutRef := updateTimeoutRef st;
     isInitialLoadRef := isInitialLoadRef st;
     initializedRef := initializedRef st;
     lastSavedDataRef := lastSavedDataRef st;
     liveCleanup := liveCleanup st; rendered := rendered st;
     hasLiveSnapshotRef := hasLiveSnapshotRef st; timers := timers st;
     nextHandle := nextHandle st; calls := c; console := l |}.

(** [clearTimeout(h)]: a handle that already fired or was cleared is
    ignored. *)
Definition clearTimeout (h : nat) (st : session) : session :=
  set_timers (filter (λ tm, handle tm ≠ h) (timers st)) (nextHandle st) st.

(** [if (updateTimeoutRef.current) clearTimeout(updateTimeoutRef.current)] *)
Definition clearPending (st : session) : session :=
  match updateTimeoutRef st with
  | Some h => clearTimeout h st
  | None => st
  end.

Definition fingerprint (ls : list string) (ss : list series)
  (el : chartElement) : string :=
  JSON_stringify (padChartData ls ss (chartType el) el).

(** [currentDataString === lastSavedDataRef.current] *)
Definition sameAsLastSaved (fp : string) (st : session) : bool :=
  match lastSavedDataRef st with
  | Some saved => String.eqb fp saved
  | None => false
  end.

Definition nonEmptyData (p : props) : bool :=
  negb (Nat.eqb (length (labels p)) 0) &&
  negb (Nat.eqb (length (p_series p)) 0).

(** The effect on [[isOpen]]: reset when the modal opens or closes. *)
Definition openCloseEffect (p : props) (st : session) : session :=
  if isOpen p then
    set_refs (updateTimeoutRef st) true false None st
  else
    let st := match updateTimeoutRef st with
              | Some h => set_timeoutRef None (clearTimeout h st)
              | None => st
              end in
    set_refs (updateTimeoutRef st) true false None st.

(** The effect that records the initial data once there is some. *)
Definition initializeEffect (p : props) (st : session) : session :=
  match element p with
  | Some el =>
      if isOpen p && nonEmptyData p && negb (initializedRef st) then
        set_refs (updateTimeoutRef st) true true
          (Some (fingerprint (labels p) (p_series p) el)) st
      else st
  | None => st
  end.

(** The live-update effect, run at time [now]; the result records whether
    the run returned its cleanup function. *)
Definition liveEffect (now : nat) (p : props) (st : session) : session :=
  match element p with
  | Some el =>
      if negb (isOpen p) || negb (nonEmptyData p) then
        set_react false (rendered st) st
      else if String.eqb (chartType el) "pie" then
        set_react false (rendered st) st
      else if negb (initializedRef st) then
        set_react false (rendered st) st
      else
        let fp := fingerprint (labels p) (p_series p) el in
        if isInitialLoadRef st && sameAsLastSaved fp st then
          set_react false (rendered st) st
        else
          let st := if isInitialLoadRef st
                    then set_isInitialLoad false st else st in
          if sameAsLastSaved fp st then
            set_react false (rendered st) st
          else
            let st := clearPending st in
            let h := nextHandle st in
            let tm := {| handle := h; deadline := now + 300;
                         t_labels := labels p; t_series := p_series p;
                         t_element := el |} in
            set_react true (rendered st)
              (set_timeoutRef (Some h)
                 (set_timers (timers st ++ [tm]) (S h) st))
  | None => set_react false (rendered st) st
  end.

Definition sameTarget (p q : props) : bool :=
  bool_decide (id <$> element p = id <$> element q) &&
  Bool.eqb (isOpen p) (isOpen q).

(** [useLiveUpdates(isOpen, element, labels, series, onSave)] on a render
    in which its dependencies changed: React first runs the cleanup of the
    previous live effect, then the effects in source order. The effect on
    [[isOpen]] runs on mount and when [isOpen] changed. [onSave] is
    [handleSaveData] of the enclosing ChartOptions. *)
Definition useLiveUpdates (now : nat) (p : props) (st : session) : session :=
  let openChanged := match rendered st with
                     | Some q => negb (Bool.eqb (isOpen q) (isOpen p))
                     | None => true
                     end in
  let st := if liveCleanup st then clearPending st else st in
  let st := if openChanged then openCloseEffect p st else st in
  let st := initializeEffect p st in
  liveEffect now p st.

(** One render of ChartOptions with its modal: the hook of the modal, then
    the reset effect of ChartOptions on
    [[selectedElement?.id, isDataModalOpen]]. *)
Definition render (now : nat) (p : props) (st : session) : session :=
  let targetChanged := match rendered st with
                       | Some q => negb (sameTarget q p)
                       | None => true
                       end in
  let st' := useLiveUpdates now p st in
  let st' := if targetChanged then set_hasLiveSnapshot false st' else st' in
  set_react (liveCleanup st') (Some p) st'.

(** One host call: it is recorded, and the result says whether it threw. *)
Definition invoke (h : host) (now : nat) (c : call) (st : session)
  : bool * session :=
  (throws h (map snd (calls st)) c,
   set_effects (calls st ++ [(now, c)]) (console st) st).

Definition log (e : log_entry) (st : session) : session :=
  set_effects (calls st) (console st ++ [e]) st.

(** [handleSaveData(updates, options)]; the boolean result is [true] when
    the call throws. *)
Definition handleSaveData (h : host) (now : nat) (updates : dataset)
  (isLive : bool) (st : session) : bool * session :=
  match rendered st ≫= element with
  | None => (false, st)
  | Some selectedElement =>
      if isLive then
        let st :=
          if pushSnapshot h then
            let '(threw, st) := invoke h now (PushSnapshot selectedElement) st in
            if threw
            then log (ConsoleError "Failed to snapshot chart edit:") st
            else st
          else st in
        let st := set_hasLiveSnapshot true st in
        invoke h now
          (UpdateSlideElement (id selectedElement) updates
             (Some "chart-live")) st
      else
        let '(threw, st) :=
          if hasLiveSnapshotRef st then
            invoke h now
              (UpdateSlideElement (id selectedElement) updates
                 (Some "chart-save")) st
          else
            invoke h now
              (UpdateSlideElement (id selectedElement) updates None) st in
        if threw then (true, st)
        else (false, set_hasLiveSnapshot false st)
  end.

(** The callback passed to [setTimeout]. *)
Definition timerCallback (h : host) (now : nat) (tm : timer)
  (st : session) : session :=
  let finalData :=
    padChartData (t_labels tm) (t_series tm)
      (chartType (t_element tm)) (t_element tm) in
  let st := set_lastSaved (Some (JSON_stringify finalData)) st in
  let '(threw, st) := handleSaveData h now finalData true st in
  if threw then log (Uncaught "live update") st else st.

(** The browser runs, at time [now], the callbacks that are due. *)
Definition tick (h : host) (now : nat) (st : session) : session :=
  let due := filter (λ tm, deadline tm ≤ now) (timers st) in
  let st := set_timers (filter (λ tm, ¬ deadline tm ≤ now) (timers st))
              (nextHandle st) st in
  foldl (λ st tm, timerCallback h now tm st) st due.

Inductive event :=
| Render (t : nat) (p : props)
| Tick (t : nat)
| Save (t : nat) (updates : dataset).

Definition step (h : host) (st : session) (ev : event) : session :=
  match ev with
  | Render t p => render t p (tick h t st)
  | Tick t => tick h t st
  | Save t updates => (handleSaveData h t updates false (tick h t st)).2
  end.

Definition run (h : host) (evs : list event) (st : session) : session :=
  foldl (step h) st evs.

End Session.

(** *** Observations on a session *)
Section Observations.
Context `{ChartData}.

Definition isLiveCommit (c : nat * call) : bool :=
  match c.2 with
  | UpdateSlideElement _ _ (Some marker) => String.eqb marker "chart-live"
  | _ => false
  end.

(** The live commits issued so far, oldest first. *)
Definition liveCommits (st : session) : list (nat * call) :=
  filter (λ c, isLiveCommit c = true) (calls st).

(** Modelled from the spec: [updateSlideElement] is not under src/. An
    update without an [__internal] marker makes the document collaborator
    request one snapshot of its own ("let updateSlideElement save it
    normally"); an update carrying a marker requests none. *)
Definition updateTakesSnapshot (internal : option string) : bool :=
  match internal with
  | None => true
  | Some _ => false
  end.

Definition isSnapshotRequest (c : nat * call) : bool :=
  match c.2 with
  | PushSnapshot _ => true
  | UpdateSlideElement _ _ internal => updateTakesSnapshot internal
  end.

(** Snapshots requested from the history so far. *)
Definition snapshotRequests (st : session) : nat :=
  length (filter (λ c, isSnapshotRequest c = true) (calls st)).

(** Direct [pushSnapshot] calls made by [handleSaveData]. *)
Definition isPushSnapshot (c : nat * call) : bool :=
  match c.2 with
  | PushSnapshot _ => true
  | UpdateSlideElement _ _ _ => false
  end.

Definition pushSnapshotCalls (st : session) : nat :=
  length (filter (λ c, isPushSnapshot c = true) (calls st)).

(** Live commits delivered to [handleSaveData] one after the other. *)
Definition liveSaves (h : host) (commits : list (nat * dataset))
  (st : session) : session :=
  foldl (λ st c, (handleSaveData h c.1 c.2 true st).2) st commits.

(** The calls one live commit makes when [pushSnapshot] is supplied. *)
Definition liveCalls (sel : chartElement) (c : nat * dataset)
  : list (nat * call) :=
  [ (c.1, PushSnapshot sel);
    (c.1, UpdateSlideElement (id sel) c.2 (Some "chart-live")) ].

(** An edit of the open modal on element [el]. *)
Definition edit (el : chartElement) (e : nat * list string * list series)
  : event :=
  Render e.1.1 {| isOpen := true; element := Some el;
                  labels := e.1.2; p_series := e.2 |}.

Definition hasData (e : nat * list string * list series) : Prop :=
  e.1.2 ≠ [] ∧ e.2 ≠ [].

(** Each edit follows the previous one, made at [t], by less than the
    quiet interval. *)
Fixpoint withinQuiet (t : nat) (rest : list (nat * list string * list series))
  : Prop :=
  match rest with
  | [] => True
  | e :: rest' => e.1.1 < t + 300 ∧ withinQuiet e.1.1 rest'
  end.

(** At most the timer the ref points to is pending. *)
Definition onePending (st : session) : Prop :=
  timers st = [] ∨
  ∃ tm, timers st = [tm] ∧ updateTimeoutRef st = Some (handle tm)
        ∧ liveCleanup st = true.

(** The modal is open and initialised with fingerprint [f0], and nothing
    is pending. *)
Definition idle (f0 : string) (st : session) : Prop :=
  timers st = [] ∧ initializedRef st = true
  ∧ lastSavedDataRef st = Some f0
  ∧ ∃ q, rendered st = Some q ∧ isOpen q = true.

(** Nothing is pending and, once initialised, the fingerprint is [fp]. *)
Definition settled (fp : string) (c : list (nat * call)) (st : session)
  : Prop :=
  timers st = [] ∧ calls st = c
  ∧ (initializedRef st = true → lastSavedDataRef st = Some fp).

(** After an edit at time [now]: no timer when the data serialise to the
    saved fingerprint [f0], else exactly the timer armed by that edit. *)
Definition armedFor (now : nat) (ls : list string) (ss : list series)
  (el : chartElement) (f0 : string) (st : session) : Prop :=
  if String.eqb (fingerprint ls ss el) f0 then timers st = []
  else ∃ h, timers st = [ {| handle := h; deadline := now + 300;
                             t_labels := ls; t_series := ss;
                             t_element := el |} ]
            ∧ updateTimeoutRef st = Some h ∧ liveCleanup st = true.

(** The props of the render caused by edit [e] of the open modal. *)
Definition editProps (el : chartElement)
  (e : nat * list string * list series) : props :=
  {| isOpen := true; element := Some el; labels := e.1.2; p_series := e.2 |}.

(** The state right after edit [e]: initialised with fingerprint [f0],
    rendered with the edit's data, and armed for it. *)
Definition afterEdit (el : chartElement) (f0 : string)
  (e : nat * list string * list series) (st : session) : Prop :=
  initializedRef st = true ∧ lastSavedDataRef st = Some f0
  ∧ rendered st = Some (editProps el e)
  ∧ armedFor e.1.1 e.1.2 e.2 el f0 st.

(** The live commit of edit [e], delivered at time [T]. *)
Definition liveCommitOf (el : chartElement) (T : nat)
  (e : nat * list string * list series) : nat * call :=
  (T, UpdateSlideElement (id el)
        (padChartData e.1.2 e.2 (chartType el) el) (Some "chart-live")).

End Observations.

(** *** A sample host and dataset *)

Definition showCell (c : cell) : string :=
  match c with
  | Num q => pretty (Qnum q) +:+ "/" +:+ pretty (Zpos (Qden q))
  | Undefined | Null => "null"
  end.

Definition showSeries (s : series) : string :=
  s_name s +:+ ":" +:+ String.concat "," (map showCell (s_values s)).

#[export] Instance sampleData : ChartData :=
  {| dataset := list string * list series;
     padChartData := λ ls ss _ _, (ls, ss);
     JSON_stringify := λ d,
       String.concat "," d.1 +:+ "|" +:+
       String.concat ";" (map showSeries d.2) |}.

Definition barChart : chartElement := {| id := "chart-1"; chartType := "bar" |}.

Definition sales (q : Q) : list series :=
  [ {| s_name := "Sales"; s_values := [Num q; Num 2] |} ].

Definition opened (q : Q) : props :=
  {| isOpen := true; element := Some barChart; labels := ["Q1"; "Q2"];
     p_series := sales q |}.

(** A host that supplies [pushSnapshot] and never throws. *)
Definition quietHost : host :=
  {| pushSnapshot := true; throws := λ _ _, false |}.

(** A host whose document update always throws. *)
Definition failingHost : host :=
  {| pushSnapshot := true;
     throws := λ _ c, match c with
                      | UpdateSlideElement _ _ _ => true
                      | PushSnapshot _ => false
                      end |}.

(** A host whose [pushSnapshot] always throws. *)
Definition noHistoryHost : host :=
  {| pushSnapshot := true;
     throws := λ _ c, match c with
                      | PushSnapshot _ => true
                      | UpdateSlideElement _ _ _ => false
                      end |}.

End LiveSession.

(** ** TableRow.js and PieChartDataPoints.js *)
Module NumericFields.

(** Built-ins the components call: [Number(string)] ([None] stands for
    [NaN]), [Number.prototype.toString], and [JSON.stringify] on the two
    shapes the components compare. *)
Class Builtins := {
  Number : string → option Q;
  numberToString : Q → string;
  stringifyValues : list cell → string;
  stringifySeries : list series → string
}.

Section Fields.
Context `{Builtins}.

(** The display string of a committed value: [''] for [0], [undefined] and
    [null], [value.toString()] otherwise. *)
Definition displayOf (value : cell) : string :=
  match value with
  | Num q => if Qeq_bool q 0 then "" else numberToString q
  | Undefined | Null => ""
  end.

(** [array[index]]: a read out of range gives [undefined]. *)
Definition at_index (values : list cell) (index : nat) : cell :=
  default Undefined (values !! index).

(** [array[index] = v] on a copy: an index past the end extends the array
    with holes. *)
Definition array_set (values : list cell) (index : nat) (v : cell)
  : list cell :=
  if decide (index < length values) then <[index := v]> values
  else values ++ replicate (index - length values) Undefined ++ [v].

(** The indices that write leaves without an entry of their own: those
    between the old end and [index]. *)
Definition array_set_holes (values : list cell) (index : nat) : gset nat :=
  list_to_set (seq (length values) (index - length values)).

(** [Math.max(0, isNaN(num) ? 0 : num)] *)
Definition clampValue (num : option Q) : Q :=
  Math_max 0 (match num with Some q => q | None => 0%Q end).

End Fields.

(** *** PieChartDataPoints *)
Module Pie.
Section Component.
Context `{Builtins}.

(** [values] is the array as read by index. [holes] are the indices of
    that array that hold no entry of their own (a sparse array, as left by
    [newValues[index] = ...] past the end): reading them gives [undefined]
    and [JSON.stringify] prints them as [null], like an entry that holds
    [undefined], but [forEach] does not visit them. *)
Record selected := {
  id : string;
  chartType : string;
  values : option (list cell);
  holes : gset nat
}.

Record updates := {
  u_values : list cell;
  u_clearSeries : bool
}.

Record state := {
  displayValues : gmap nat string;
  focusedInputs : gset nat;
  prevValuesRef : option (list cell);
  isMountedRef : bool;
  (* calls to updateSlideElement, oldest first *)
  updateSlideElement : list (string * updates)
}.

Definition set_display (d : gmap nat string) (st : state) : state :=
  {| displayValues := d; focusedInputs := focusedInputs st;
     prevValuesRef := prevValuesRef st; isMountedRef := isMountedRef st;
     updateSlideElement := updateSlideElement st |}.

Definition set_focused (f : gset nat) (st : state) : state :=
  {| displayValues := displayValues st; focusedInputs := f;
     prevValuesRef := prevValuesRef st; isMountedRef := isMountedRef st;
     updateSlideElement := updateSlideElement st |}.

Definition set_prev (v : option (list cell)) (m : bool) (st : state)
  : state :=
  {| displayValues := displayValues st; focusedInputs := focusedInputs st;
     prevValuesRef := v; isMountedRef := m;
     updateSlideElement := updateSlideElement st |}.

Definition call_update (target : string) (u : updates) (st : state)
  : state :=
  {| displayValues := displayValues st; focusedInputs := focusedInputs st;
     prevValuesRef := prevValuesRef st; isMountedRef := isMountedRef st;
     updateSlideElement := updateSlideElement st ++ [(target, u)] |}.

(** [currentValues.forEach((value, index) => ...)] of the mount effect;
    [forEach] calls back for the indices that hold an entry only. *)
Fixpoint initialDisplay (sparse : gset nat) (index : nat)
  (currentValues : list cell) (acc : gmap nat string) : gmap nat string :=
  match currentValues with
  | [] => acc
  | value :: rest =>
      initialDisplay sparse (S index) rest
        (if decide (index ∈ sparse) then acc
         else <[index := displayOf value]> acc)
  end.

(** The same loop in the update effect, which skips focused inputs. *)
Fixpoint newDisplayValues (focused sparse : gset nat) (index : nat)
  (currentValues : list cell) (acc : gmap nat string) : gmap nat string :=
  match currentValues with
  | [] => acc
  | value :: rest =>
      newDisplayValues focused sparse (S index) rest
        (if decide (index ∈ sparse) then acc
         else if decide (index ∈ focused) then acc
         else <[index := displayOf value]> acc)
  end.

Definition mountEffect (el : selected) (st : state) : state :=
  if isMountedRef st then st
  else
    let currentValues := default [] (values el) in
    set_prev (Some currentValues) true
      (set_display (initialDisplay (holes el) 0 currentValues ∅) st).

(** The effect on [[selectedElement.values]]. *)
Definition valuesEffect (el : selected) (st : state) : state :=
  if negb (isMountedRef st) then st
  else
    let currentValues := default [] (values el) in
    let prevValues := default [] (prevValuesRef st) in
    if negb (String.eqb (stringifyValues prevValues)
                        (stringifyValues currentValues)) then
      set_prev (Some currentValues) (isMountedRef st)
        (set_display
           (newDisplayValues (focusedInputs st) (holes el) 0 currentValues ∅
              ∪ displayValues st) st)
    else st.

Definition commitValue (el : selected) (index : nat) (v : cell)
  (st : state) : state :=
  call_update (id el)
    {| u_values := array_set (default [] (values el)) index v;
       u_clearSeries := String.eqb (chartType el) "pie" |} st.

Definition handleValueChange (el : selected) (index : nat) (value : string)
  (st : state) : state :=
  let st := set_display (<[index := value]> (displayValues st)) st in
  if negb (String.eqb value "") then
    let num := Number value in
    let finalValue := clampValue num in
    commitValue el index (Num finalValue) st
  else st.

Definition handleValueFocus (index : nat) (st : state) : state :=
  set_focused ({[index]} ∪ focusedInputs st) st.

Definition handleValueBlur (el : selected) (index : nat) (st : state)
  : state :=
  let displayValue := displayValues st !! index in
  let st := set_focused (focusedInputs st ∖ {[index]}) st in
  match displayValue with
  | Some "" | None =>
      set_display (<[index := ""]> (displayValues st))
        (commitValue el index (Num 0) st)
  | Some _ => st
  end.

End Component.
End Pie.

(** *** TableRow *)
Module Row.
Section Component.
Context `{Builtins}.

(** The key [`${seriesIndex}-${rowIndex}`] is kept as the pair it
    encodes. *)
Definition key (seriesIndex rowIndex : nat) : nat * nat :=
  (seriesIndex, rowIndex).

Record state := {
  displayValues : gmap (nat * nat) string;
  focusedInputs : gset (nat * nat);
  prevSeriesRef : list series;
  isMountedRef : bool;
  (* calls to the parent's onValueChange, oldest first *)
  onValueChange : list (nat * nat * string)
}.

Definition set_display (d : gmap (nat * nat) string) (st : state) : state :=
  {| displayValues := d; focusedInputs := focusedInputs st;
     prevSeriesRef := prevSeriesRef st; isMountedRef := isMountedRef st;
     onValueChange := onValueChange st |}.

Definition set_focused (f : gset (nat * nat)) (st : state) : state :=
  {| displayValues := displayValues st; focusedInputs := f;
     prevSeriesRef := prevSeriesRef st; isMountedRef := isMountedRef st;
     onValueChange := onValueChange st |}.

Definition set_prev (v : list series) (m : bool) (st : state) : state :=
  {| displayValues := displayValues st; focusedInputs := focusedInputs st;
     prevSeriesRef := v; isMountedRef := m;
     onValueChange := onValueChange st |}.

Definition call_onValueChange (seriesIndex rowIndex : nat) (value : string)
  (st : state) : state :=
  {| displayValues := displayValues st; focusedInputs := focusedInputs st;
     prevSeriesRef := prevSeriesRef st; isMountedRef := isMountedRef st;
     onValueChange := onValueChange st ++ [(seriesIndex, rowIndex, value)] |}.

Fixpoint initialDisplay (rowIndex seriesIndex : nat) (ss : list series)
  (acc : gmap (nat * nat) string) : gmap (nat * nat) string :=
  match ss with
  | [] => acc
  | s :: rest =>
      initialDisplay rowIndex (S seriesIndex) rest
        (<[key seriesIndex rowIndex :=
             displayOf (at_index (s_values s) rowIndex)]> acc)
  end.

Fixpoint newDisplayValues (focused : gset (nat * nat))
  (rowIndex seriesIndex : nat) (ss : list series)
  (acc : gmap (nat * nat) string) : gmap (nat * nat) string :=
  match ss with
  | [] => acc
  | s :: rest =>
      newDisplayValues focused rowIndex (S seriesIndex) rest
        (if decide (key seriesIndex rowIndex ∈ focused) then acc
         else <[key seriesIndex rowIndex :=
                  displayOf (at_index (s_values s) rowIndex)]> acc)
  end.

Definition mountEffect (ss : list series) (rowIndex : nat) (st : state)
  : state :=
  if isMountedRef st then st
  else set_prev ss true (set_display (initialDisplay rowIndex 0 ss ∅) st).

(** The effect on [[series, rowIndex]]. *)
Definition seriesEffect (ss : list series) (rowIndex : nat) (st : state)
  : state :=
  if negb (isMountedRef st) then st
  else if negb (String.eqb (stringifySeries (prevSeriesRef st))
                           (stringifySeries ss)) then
    set_prev ss (isMountedRef st)
      (set_display
         (newDisplayValues (focusedInputs st) rowIndex 0 ss ∅
            ∪ displayValues st) st)
  else st.

Definition handleValueChange (rowIndex seriesIndex : nat) (value : string)
  (st : state) : state :=
  let st :=
    set_display (<[key seriesIndex rowIndex := value]> (displayValues st))
      st in
  if negb (String.eqb value "")
  then call_onValueChange seriesIndex rowIndex value st
  else st.

Definition handleValueFocus (rowIndex seriesIndex : nat) (st : state)
  : state :=
  set_focused ({[key seriesIndex rowIndex]} ∪ focusedInputs st) st.

Definition handleValueBlur (rowIndex seriesIndex : nat) (st : state)
  : state :=
  let displayValue := displayValues st !! key seriesIndex rowIndex in
  let st := set_focused (focusedInputs st ∖ {[key seriesIndex rowIndex]}) st in
  match displayValue with
  | Some "" | None =>
      set_display (<[key seriesIndex rowIndex := ""]> (displayValues st))
        (call_onValueChange seriesIndex rowIndex "0" st)
  | Some _ => st
  end.

(** The [min] attribute of the value inputs. *)
Definition inputMin (chartType : string) : option string :=
  if String.eqb chartType "bar" then None else Some "0".

End Component.
End Row.


(** *** Sample built-ins: integer literals only *)

Fixpoint digitsValue (acc : N) (s : string) : option N :=
  match s with
  | EmptyString => Some acc
  | String a rest =>
      let n := Ascii.N_of_ascii a in
      if (48 <=? n)%N && (n <=? 57)%N
      then digitsValue (acc * 10 + (n - 48))%N rest
      else None
  end.

Definition sampleNumber (s : string) : option Q :=
  match s with
  | EmptyString => Some 0%Q
  | String a rest =>
      if (Ascii.N_of_ascii a =? 45)%N && negb (String.eqb rest "")
      then (λ n, inject_Z (- Z.of_N n)) <$> digitsValue 0 rest
      else (λ n, inject_Z (Z.of_N n)) <$> digitsValue 0 s
  end.

Definition sampleShow (c : cell) : string :=
  match c with
  | Num q => pretty (Qnum q) +:+ "/" +:+ pretty (Zpos (Qden q))
  | Undefined | Null => "null"
  end.

#[export] Instance sampleBuiltins : Builtins :=
  {| Number := sampleNumber;
     numberToString := λ q, pretty (Qnum q);
     stringifyValues := λ l, String.concat "," (map sampleShow l);
     stringifySeries := λ ss,
       String.concat ";"
         (map (λ s, s_name s +:+ ":" +:+
                    String.concat "," (map sampleShow (s_values s))) ss) |}.

Definition pieChart (vs : list cell) : Pie.selected :=
  {| Pie.id := "pie-1"; Pie.chartType := "pie"; Pie.values := Some vs;
     Pie.holes := ∅ |}.

(** The pie chart whose values are the sparse array [[3, <hole>, 5]], as
    committed by typing 5 into the third input of a chart with the single
    value 3. *)
Definition sparsePie : Pie.selected :=
  {| Pie.id := "pie-1"; Pie.chartType := "pie";
     Pie.values := Some (array_set [Num 3] 2 (Num 5));
     Pie.holes := array_set_holes [Num 3] 2 |}.

(** A mounted pie editor showing [3, 4] with the first input focused and
    cleared by the user. *)
Definition pieEditing : Pie.state :=
  Pie.handleValueChange (pieChart [Num 3; Num 4]) 0 ""
    (Pie.handleValueFocus 0
       (Pie.mountEffect (pieChart [Num 3; Num 4])
          {| Pie.displayValues := ∅; Pie.focusedInputs := ∅;
             Pie.prevValuesRef := None; Pie.isMountedRef := false;
             Pie.updateSlideElement := [] |})).

Definition twoSeries (a b : Q) : list series :=
  [ {| s_name := "A"; s_values := [Num a; Num 1] |};
    {| s_name := "B"; s_values := [Num b; Num 1] |} ].

(** A mounted first row of a two-series table with the first input focused
    and cleared by the user. *)
Definition rowEditing : Row.state :=
  Row.handleValueChange 0 0 ""
    (Row.handleValueFocus 0 0
       (Row.mountEffect (twoSeries 3 4) 0
          {| Row.displayValues := ∅; Row.focusedInputs := ∅;
             Row.prevSeriesRef := []; Row.isMountedRef := false;
             Row.onValueChange := [] |})).

End NumericFields.

(** ** More on generateThumbnail.js: logging and the page *)
Module ThumbnailAux.
Import Thumbnail.

(** The console entries [renderElement] writes for [el], read off the
    embedding. *)
Definition warnings (E : env) (el : element) : list log_entry :=
  console (renderElement E el [] empty_world).2.

(** [w] with [entries] appended to its console. *)
Definition logged (entries : list log_entry) (w : world) : world :=
  {| body := body w; stages := stages w;
     console := console w ++ entries; fresh := fresh w |}.

(** Every container and stage of the page was named by an earlier
    [createContainer]. *)
Definition wellFormed (w : world) : Prop :=
  Forall (λ c, c < fresh w) (body w) ∧ Forall (λ c, c < fresh w) (stages w).

Definition isWarn (e : log_entry) : bool :=
  match e with
  | ConsoleWarn _ => true
  | _ => false
  end.

(** [s] with its element array replaced. *)
Definition withElements (s : slide) (els : list element) : slide :=
  {| s_id := s_id s; backgroundImage := backgroundImage s;
     backgroundGradient := backgroundGradient s;
     backgroundColor := backgroundColor s; elements := els |}.

(** The slides of a deck whose render rejects. *)
Definition rejected (E : env) (slides : list slide) : list slide :=
  filter (λ s, backgroundResolves E s = false) slides.

(** A page on which two renders already leaked their container. *)
Definition usedWorld : world :=
  {| body := [0; 2]; stages := [0; 2];
     console := [ConsoleError "Error generating thumbnail:"]; fresh := 3 |}.

Definition gradientSlide : slide :=
  {| s_id := "g1"; backgroundImage := Some "";
     backgroundGradient :=
       Some {| g_type := Some "radial";
               g_colors := Some ["#000"; "#888"; "#fff"] |};
     backgroundColor := Some "#112233";
     elements := [sampleElement "video" "" None None;
                  sampleElement "shape" "" None None] |}.

Definition circleElement : element :=
  {| el_type := "shape"; el_x := Some 10%Q; el_y := Some 20%Q;
     el_width := Some 300%Q; el_height := Some 100%Q; el_rotation := None;
     el_content := None; el_fontSize := None; el_fontFamily := None;
     el_fontStyle := None; el_color := None; el_textAlign := None;
     el_shapeType := Some "circle"; el_fillColor := None;
     el_borderColor := None; el_borderWidth := None; el_src := "";
     el_chart := ""; el_rows := None; el_cols := None |}.

End ThumbnailAux.

(** ** More on useLiveUpdates and ChartOptions *)
Module LiveAux.
Import LiveSession.

Section Observations.
Context `{ChartData}.

(** An event that cannot start a live update: a render whose chart, if
    any, is a pie chart. *)
Definition noLiveTarget (ev : event) : Prop :=
  match ev with
  | Render _ p =>
      match element p with
      | Some el => chartType el = "pie"
      | None => True
      end
  | Tick _ | Save _ _ => True
  end.

(** The pending timer, if any, is the one the ref points to and captured
    the data of the latest render. *)
Definition pendingIsLatest (st : session) : Prop :=
  timers st = [] ∨
  ∃ tm p, timers st = [tm] ∧ rendered st = Some p
          ∧ element p = Some (t_element tm)
          ∧ labels p = t_labels tm ∧ p_series p = t_series tm
          ∧ updateTimeoutRef st = Some (handle tm)
          ∧ liveCleanup st = true.

(** An event inside one burst on the target of [p0]: a timer run, or a
    render that keeps the element id and the modal state of [p0], the
    dependencies of the reset effect of ChartOptions. The explicit save
    ends the burst. *)
Definition sameBurst (p0 : props) (ev : event) : Prop :=
  match ev with
  | Render _ p => sameTarget p0 p = true
  | Tick _ => True
  | Save _ _ => False
  end.

(** The calls made by the live commits [commits], each given with the
    element that was selected when it ran, when [pushSnapshot] is
    supplied. *)
Definition burstCalls (commits : list (chartElement * (nat * dataset)))
  : list (nat * call) :=
  flat_map (λ c, liveCalls c.1 c.2) commits.


End Observations.

Definition pieElement : chartElement :=
  {| id := "chart-2"; chartType := "pie" |}.

Definition pieOpened (q : Q) : props :=
  {| isOpen := true; element := Some pieElement; labels := ["Q1"; "Q2"];
     p_series := sales q |}.

Definition closed (q : Q) : props :=
  {| isOpen := false; element := Some barChart; labels := ["Q1"; "Q2"];
     p_series := sales q |}.


End LiveAux.

(** ** More on the numeric inputs *)
Module FieldAux.
Import NumericFields.

(** A committed cell that is a hole or a number not below zero. *)
Definition nonNegative (c : cell) : Prop :=
  match c with
  | Num q => (0 <= q)%Q
  | Undefined | Null => True
  end.

(** Every update sent so far carries only such cells. *)
Definition sentNonNegative (st : Pie.state) : Prop :=
  Forall (λ c, Forall nonNegative (Pie.u_values c.2))
    (Pie.updateSlideElement st).

Definition pieUnmounted : Pie.state :=
  {| Pie.displayValues := ∅; Pie.focusedInputs := ∅;
     Pie.prevValuesRef := None; Pie.isMountedRef := false;
     Pie.updateSlideElement := [] |}.

Definition rowUnmounted : Row.state :=
  {| Row.displayValues := ∅; Row.focusedInputs := ∅;
     Row.prevSeriesRef := []; Row.isMountedRef := false;
     Row.onValueChange := [] |}.

(** A committed value the inputs show as the empty string: [0],
    [undefined] or [null]. *)
Definition blank (c : cell) : Prop :=
  match c with
  | Num q => (q == 0)%Q
  | Undefined | Null => True
  end.

Section Table.
Context `{Builtins}.

(** Modelled from the spec: the [onValueChange] handler of the chart data
    table, which a row calls with the typed string, is not under src/.
    "Non-numeric or negative input is clamped to 0 [...] numeric fields
    clamp to >= 0 except where a field's domain explicitly allows negative
    values". The domain of a table input allows negative values where the
    row gives the input no [min] bound. The result is the number committed
    for the string [value]. *)
Definition onValueChangeCommits (chartType value : string) : Q :=
  match Row.inputMin chartType with
  | Some _ => clampValue (Number value)
  | None => match Number value with Some q => q | None => 0%Q end
  end.

End Table.

(** A mounted pie editor showing [3, 4, 5] with no input focused. *)
Definition pieShowing : Pie.state :=
  Pie.mountEffect (pieChart [Num 3; Num 4; Num 5]) pieUnmounted.

(** A mounted second row of a one-series table showing 4, with no input
    focused. *)
Definition rowShowing : Row.state :=
  Row.mountEffect [ {| s_name := "A"; s_values := [Num 3; Num 4; Num 5] |} ] 1
    rowUnmounted.

End FieldAux.

Module ThumbnailFacts.
Import Thumbnail.

Ltac run := unfold mbind, M_bind, bind, mret, M_ret, ret, try_catch, throw,
  imageSettles, console_warn, console_error, layer_add in *; simpl in *.

Lemma sameDom_refl w : sameDom w w.
Proof. by repeat split. Qed.

Lemma renderElement_spec E el layer w :
  ∃ w', renderElement E el layer w = (Ok (layer ++ contribution E el), w')
        ∧ sameDom w w'.
Proof.
  unfold contribution, renderElement.
  destruct (String.eqb (el_type el) "text");
    [ eexists; split; [reflexivity | apply sameDom_refl] |].
  destruct (String.eqb (el_type el) "shape");
    [ eexists; split; [reflexivity | apply sameDom_refl] |].
  destruct (String.eqb (el_type el) "image").
  { run. destruct (imageLoads E (el_src el)); simpl; rewrite ?app_nil_r;
      eexists; (split; [reflexivity | by repeat split]). }
  destruct (String.eqb (el_type el) "chart").
  { run. destruct (renderChartToImage E el) as [d|]; simpl;
      [destruct (imageLoads E d); simpl |];
      eexists; (split; [reflexivity | by repeat split]). }
  destruct (String.eqb (el_type el) "table").
  { run. rewrite <- app_assoc. simpl.
    eexists; split; [reflexivity | apply sameDom_refl]. }
  run. rewrite app_nil_r. eexists; split; [reflexivity | apply sameDom_refl].
Qed.

Lemma sameDom_trans w1 w2 w3 : sameDom w1 w2 → sameDom w2 w3 → sameDom w1 w3.
Proof. unfold sameDom. intros (?&?&?) (?&?&?). repeat split; congruence. Qed.

Lemma renderElements_spec E els : ∀ layer w,
  ∃ w', renderElements E els layer w
        = (Ok (layer ++ concat (map (contribution E) els)), w')
        ∧ sameDom w w'.
Proof.
  induction els as [|el els IH]; intros layer w; simpl.
  - exists w. rewrite app_nil_r. split; [reflexivity | apply sameDom_refl].
  - destruct (renderElement_spec E el layer w) as (w1 & Hel & Hd1).
    destruct (IH (layer ++ contribution E el) w1) as (w2 & Hrest & Hd2).
    exists w2. split; [| by eapply sameDom_trans].
    unfold mbind, M_bind, bind, try_catch. rewrite Hel.
    rewrite Hrest. by rewrite app_assoc.
Qed.

Lemma renderBackground_spec E s layer w :
  renderBackground E s layer w =
  match backgroundLayer E s with
  | Some bg => (Ok (layer ++ bg), w)
  | None => (Throw "background image failed to load", w)
  end.
Proof.
  unfold backgroundLayer, renderBackground.
  destruct (truthy_str (backgroundImage s)).
  { run. by destruct (imageLoads E _). }
  destruct (backgroundGradient s) as [g|]; [reflexivity |].
  by destruct (truthy_str (backgroundColor s)).
Qed.

Lemma backgroundLayer_resolves E s :
  backgroundResolves E s = true →
  ∃ n, backgroundLayer E s = Some [n].
Proof.
  unfold backgroundResolves, backgroundLayer, renderBackground.
  destruct (truthy_str (backgroundImage s)); simpl.
  { intros H. run. rewrite H. eauto. }
  intros _. destruct (backgroundGradient s) as [g|]; [by eexists |].
  destruct (truthy_str (backgroundColor s)); by eexists.
Qed.

Lemma backgroundLayer_fails E s :
  backgroundResolves E s = false → backgroundLayer E s = None.
Proof.
  unfold backgroundResolves, backgroundLayer, renderBackground.
  destruct (truthy_str (backgroundImage s)); simpl; [| done].
  intros H. run. by rewrite H.
Qed.

(** The resolving path: the scene is the background followed by the
    elements' nodes in array order, and the container and the stage of the
    call are gone from the page. *)
Lemma generateSlideThumbnail_resolves E s w :
  backgroundResolves E s = true →
  ∃ n w',
    backgroundLayer E s = Some [n] ∧
    generateSlideThumbnail E s w =
      (Ok {| pixelRatio := (1 # 4)%Q; mimeType := "image/png";
             scene := n :: concat (map (contribution E) (elements s)) |}, w')
    ∧ body w' = filter (λ c, c ≠ fresh w) (body w ++ [fresh w])
    ∧ stages w' = filter (λ c, c ≠ fresh w) (stages w ++ [fresh w]).
Proof.
  intros Hbg. destruct (backgroundLayer_resolves E s Hbg) as (n & Hn).
  unfold generateSlideThumbnail.
  unfold mbind, M_bind, bind, try_catch, createContainer, appendChild,
    newStage, toDataURL, stage_destroy, removeChild.
  rewrite renderBackground_spec, Hn. cbn [app].
  match goal with
  | |- context [renderElements E (elements s) [n] ?w0] =>
      destruct (renderElements_spec E (elements s) [n] w0)
        as (w1 & Hels & Hb & Hs & Hf)
  end.
  rewrite Hels. cbn in *.
  eexists n, _. split; [done |]. split; [reflexivity |].
  cbn. by rewrite Hb, Hs.
Qed.

(** The rejecting path: the [catch] block only logs and rejects, so the
    container stays attached and the stage stays alive. *)
Lemma generateSlideThumbnail_rejects E s w :
  backgroundResolves E s = false →
  ∃ w',
    generateSlideThumbnail E s w
      = (Throw "background image failed to load", w')
    ∧ body w' = body w ++ [fresh w]
    ∧ stages w' = stages w ++ [fresh w].
Proof.
  intros Hbg. pose proof (backgroundLayer_fails E s Hbg) as Hn.
  unfold generateSlideThumbnail.
  unfold mbind, M_bind, bind, try_catch, createContainer, appendChild,
    newStage, console_error, throw.
  rewrite renderBackground_spec, Hn. cbn.
  eexists. split; [reflexivity |]. by split.
Qed.

Lemma thumbnailOf_spec E s w :
  ∃ w', generateSlideThumbnail E s w =
        (match thumbnailOf E s with
         | Some p => Ok p.2
         | None => Throw "background image failed to load"
         end, w').
Proof.
  unfold thumbnailOf.
  destruct (backgroundResolves E s) eqn:Hbg.
  - destruct (generateSlideThumbnail_resolves E s w Hbg)
      as (n & w' & Hn & Hw & _).
    destruct (generateSlideThumbnail_resolves E s empty_world Hbg)
      as (n0 & w0 & Hn0 & H0 & _).
    assert (n0 = n) as -> by congruence.
    rewrite H0, Hw. simpl. eauto.
  - destruct (generateSlideThumbnail_rejects E s w Hbg) as (w' & Hw & _).
    destruct (generateSlideThumbnail_rejects E s empty_world Hbg)
      as (w0 & H0 & _).
    rewrite H0, Hw. eauto.
Qed.

Lemma contribution_known E el :
  knownType el = true →
  nonEmpty (contribution E el) = negb (imageFails E el).
Proof.
  unfold knownType. intros Hk. apply bool_decide_eq_true in Hk.
  unfold contribution, renderElement, imageFails.
  repeat (apply elem_of_cons in Hk as [-> | Hk]); [.. | by inversion Hk];
    simpl; run; try reflexivity.
  - by destruct (imageLoads E (el_src el)).
  - destruct (renderChartToImage E el) as [d|]; [| done].
    by destruct (imageLoads E d).
Qed.

Lemma count_nonEmpty {A B} (f : A → list B) (bad : A → bool) (l : list A) :
  Forall (λ a, nonEmpty (f a) = negb (bad a)) l →
  length (filter (λ g, nonEmpty g = true) (map f l))
  = length l - length (filter (λ a, bad a = true) l).
Proof.
  induction 1 as [|a l Ha _ IH]; [done |].
  cbn [map]. rewrite !filter_cons.
  pose proof (length_filter (λ a, bad a = true) l) as Hle.
  destruct (bad a); simpl in Ha.
  - destruct (decide (true = true)) as [_|]; [| done].
    destruct (decide (nonEmpty (f a) = true)) as [Hc|_]; [congruence |].
    cbn [length]. lia.
  - destruct (decide (false = true)) as [|_]; [done |].
    destruct (decide (nonEmpty (f a) = true)) as [_|]; [| done].
    cbn [length]. lia.
Qed.

Lemma concat_nonEmpty {A} (groups : list (list A)) :
  concat groups = concat (filter (λ g, nonEmpty g = true) groups).
Proof.
  induction groups as [|g groups IH]; [done |].
  rewrite filter_cons.
  destruct (decide (nonEmpty g = true)) as [_|Hne]; simpl.
  - by rewrite IH.
  - destruct g; [exact IH | done].
Qed.

Lemma thumbnailLoop_spec E slides : ∀ thumbnails w,
  ∃ w', thumbnailLoop E slides thumbnails w
        = (Ok (thumbnails ++ omap (thumbnailOf E) slides), w').
Proof.
  induction slides as [|s slides IH]; intros thumbnails w; simpl.
  - exists w. by rewrite app_nil_r.
  - destruct (thumbnailOf_spec E s w) as (w1 & Hs).
    unfold mbind, M_bind, bind, try_catch. rewrite Hs.
    destruct (thumbnailOf E s) as [[id url]|] eqn:Hof.
    + assert (id = s_id s) as ->.
      { unfold thumbnailOf in Hof.
        destruct (generateSlideThumbnail E s empty_world) as [[?|?] ?];
          congruence. }
      simpl. destruct (IH (thumbnails ++ [(s_id s, url)]) w1) as (w2 & ->).
      exists w2. by rewrite <- app_assoc.
    + unfold console_error. simpl.
      match goal with
      | |- context [thumbnailLoop E slides thumbnails ?w0] =>
          destruct (IH thumbnails w0) as (w2 & ->)
      end.
      by exists w2.
Qed.

(** C3 (the code departs from the claim): the cleanup sits at the end of
    the [try] block only. A render that resolves, even with a failing image
    element, leaves the page as it found it; for a slide whose background
    image does not load, the call rejects and leaves its off-screen
    container attached to the document body and its stage alive. *)
Example C3_rejected_render_keeps_container :
  (∃ url w', generateSlideThumbnail offlineEnv mixedSlide empty_world
             = (Ok url, w')
             ∧ body w' = [] ∧ stages w' = [])
  ∧ ∃ w', generateSlideThumbnail offlineEnv brokenBackgroundSlide empty_world
          = (Throw "background image failed to load", w')
          ∧ body w' = [0] ∧ stages w' = [0].
Proof. split; repeat eexists; by vm_compute. Qed.

(** The deck of five slides whose third slide cannot render yields the
    four other thumbnails. *)
Example deck_of_five_yields_four :
  ∃ thumbnails w',
    generateAllSlideThumbnails offlineEnv sampleDeck empty_world
      = (Ok thumbnails, w')
    ∧ map fst thumbnails = ["s1"; "s2"; "s4"; "s5"].
Proof. do 2 eexists. by vm_compute. Qed.

(** C4, as stated, fails: a slide whose only element is a chart that the
    rasteriser rejects has N = 1 and k = 1, yet the composite holds one
    element layer (the placeholder rectangle) above the background. *)
Lemma C4_failed_chart_still_paints :
  ∃ url w',
    generateSlideThumbnail offlineEnv chartOnlySlide empty_world
      = (Ok url, w')
    ∧ length (elements chartOnlySlide) = 1
    ∧ length (filter (λ el, resourceFails offlineEnv el = true)
                (elements chartOnlySlide)) = 1
    ∧ length (scene url) = 2
    ∧ length (elementLayers offlineEnv (elements chartOnlySlide))
      ≠ length (elements chartOnlySlide)
        - length (filter (λ el, resourceFails offlineEnv el = true)
                    (elements chartOnlySlide)).
Proof. do 2 eexists. by vm_compute. Qed.

(** C4 (amended): for a slide of text, shape, image, chart and table
    elements whose background resolves, the call resolves with a scene made
    of the background node followed by the elements' node groups in array
    order; the number of non-empty groups is N minus the number of image
    elements whose load fails (a failing chart paints its placeholder). *)
Theorem C4_layers_follow_array_order E s w :
  backgroundResolves E s = true →
  Forall (λ el, knownType el = true) (elements s) →
  ∃ n url w',
    generateSlideThumbnail E s w = (Ok url, w')
    ∧ scene url = n :: concat (map (contribution E) (elements s))
    ∧ scene url = n :: concat (elementLayers E (elements s))
    ∧ length (elementLayers E (elements s))
      = length (elements s)
        - length (filter (λ el, imageFails E el = true) (elements s)).
Proof.
  intros Hbg Hknown.
  destruct (generateSlideThumbnail_resolves E s w Hbg)
    as (n & w' & _ & Hrun & _).
  eexists n, _, w'. split; [exact Hrun |]. cbn [scene].
  split; [reflexivity |]. split.
  - f_equal. apply concat_nonEmpty.
  - apply count_nonEmpty.
    eapply Forall_impl; [exact Hknown |]. intros el. apply contribution_known.
Qed.

Lemma C4_layers_follow_array_order_witness :
  ∃ n url w',
    generateSlideThumbnail offlineEnv mixedSlide empty_world = (Ok url, w')
    ∧ scene url
      = n :: concat (map (contribution offlineEnv) (elements mixedSlide))
    ∧ scene url
      = n :: concat (elementLayers offlineEnv (elements mixedSlide))
    ∧ length (elementLayers offlineEnv (elements mixedSlide))
      = length (elements mixedSlide)
        - length (filter (λ el, imageFails offlineEnv el = true)
                    (elements mixedSlide)).
Proof.
  apply (C4_layers_follow_array_order offlineEnv mixedSlide empty_world).
  - reflexivity.
  - repeat constructor.
Defined.

(** C5: the batch call always resolves; its result holds, in deck order,
    one (slideId, thumbnail) pair for every slide whose render resolves and
    nothing for a slide whose render rejects. *)
Theorem C5_batch_skips_failed_slides E slides w :
  ∃ w',
    generateAllSlideThumbnails E slides w
      = (Ok (omap (thumbnailOf E) slides), w')
    ∧ length (omap (thumbnailOf E) slides)
      = length (filter (λ s, backgroundResolves E s = true) slides).
Proof.
  destruct (thumbnailLoop_spec E slides [] w) as (w' & Hloop).
  exists w'. split; [exact Hloop |]. clear Hloop.
  induction slides as [|s slides IH]; [done |].
  cbn [omap list_omap]. rewrite filter_cons.
  unfold thumbnailOf at 1.
  destruct (backgroundResolves E s) eqn:Hbg.
  - destruct (generateSlideThumbnail_resolves E s empty_world Hbg)
      as (n & w0 & _ & -> & _).
    destruct (decide (true = true)) as [_|]; [| done]. simpl.
    by rewrite IH.
  - destruct (generateSlideThumbnail_rejects E s empty_world Hbg)
      as (w0 & -> & _).
    by destruct (decide (false = true)) as [|_].
Qed.

(** C10: a background image that does not load rejects the whole call, so
    the slide yields no thumbnail, whereas an image element that does not
    load is only left out of the layer. *)
Theorem C10_background_failure_rejects E s w :
  truthy_str (backgroundImage s) = true →
  imageLoads E (default "" (backgroundImage s)) = false →
  (∃ error w', generateSlideThumbnail E s w = (Throw error, w'))
  ∧ thumbnailOf E s = None
  ∧ (∃ w', generateAllSlideThumbnails E [s] w = (Ok [], w'))
  ∧ ∀ el layer w0,
      imageFails E el = true →
      ∃ w1, renderElement E el layer w0 = (Ok layer, w1).
Proof.
  intros Htruthy Hload.
  assert (backgroundResolves E s = false) as Hbg.
  { unfold backgroundResolves. by rewrite Htruthy, Hload. }
  destruct (generateSlideThumbnail_rejects E s w Hbg) as (w' & Hrun & _).
  assert (thumbnailOf E s = None) as Hnone.
  { unfold thumbnailOf.
    by destruct (generateSlideThumbnail_rejects E s empty_world Hbg)
      as (w0 & -> & _). }
  split; [eauto |]. split; [exact Hnone |]. split.
  - destruct (thumbnailLoop_spec E [s] [] w) as (w2 & Hb). exists w2.
    unfold generateAllSlideThumbnails. rewrite Hb. simpl. by rewrite Hnone.
  - intros el layer w0 Hfail.
    destruct (renderElement_spec E el layer w0) as (w1 & Hel & _).
    exists w1. rewrite Hel. f_equal. f_equal.
    unfold imageFails in Hfail. apply andb_true_iff in Hfail as [Hty Hsrc].
    apply negb_true_iff in Hsrc.
    assert (contribution E el = []) as ->; [| by rewrite app_nil_r].
    unfold contribution, renderElement. apply String.eqb_eq in Hty.
    rewrite Hty. simpl. run. by rewrite Hsrc.
Qed.

Lemma C10_background_failure_rejects_witness :
  (∃ error w',
     generateSlideThumbnail offlineEnv brokenBackgroundSlide empty_world
       = (Throw error, w'))
  ∧ thumbnailOf offlineEnv brokenBackgroundSlide = None
  ∧ (∃ w', generateAllSlideThumbnails offlineEnv [brokenBackgroundSlide]
             empty_world = (Ok [], w'))
  ∧ ∀ el layer w0,
      imageFails offlineEnv el = true →
      ∃ w1, renderElement offlineEnv el layer w0 = (Ok layer, w1).
Proof.
  apply (C10_background_failure_rejects offlineEnv brokenBackgroundSlide
           empty_world); reflexivity.
Defined.

End ThumbnailFacts.

Module LiveFacts.
Import LiveSession.

Section WithData.
Context `{ChartData}.

(** [handleSaveData] only touches the snapshot flag, the call log and the
    console. *)
Lemma handleSaveData_frame h now u live st :
  let st' := (handleSaveData h now u live st).2 in
  timers st' = timers st ∧ updateTimeoutRef st' = updateTimeoutRef st
  ∧ liveCleanup st' = liveCleanup st ∧ rendered st' = rendered st
  ∧ initializedRef st' = initializedRef st
  ∧ lastSavedDataRef st' = lastSavedDataRef st.
Proof.
  unfold handleSaveData, invoke, log.
  destruct (rendered st ≫= element) as [sel|]; [| by repeat split].
  destruct live.
  - simpl. destruct (pushSnapshot h);
      [destruct (throws h (map snd (calls st)) (PushSnapshot sel)) |];
      by repeat split.
  - destruct (hasLiveSnapshotRef st); simpl;
      destruct (throws h _ _); by repeat split.
Qed.

Lemma timerCallback_frame h now tm st :
  let st' := timerCallback h now tm st in
  timers st' = timers st ∧ updateTimeoutRef st' = updateTimeoutRef st
  ∧ liveCleanup st' = liveCleanup st ∧ rendered st' = rendered st
  ∧ initializedRef st' = initializedRef st
  ∧ lastSavedDataRef st'
    = Some (fingerprint (t_labels tm) (t_series tm) (t_element tm)).
Proof.
  unfold timerCallback.
  match goal with
  | |- context [handleSaveData h now ?u true ?s] =>
      pose proof (handleSaveData_frame h now u true s) as Hf;
      destruct (handleSaveData h now u true s) as [threw st1]
  end.
  simpl in Hf. destruct Hf as (? & ? & ? & ? & ? & ?).
  destruct threw; simpl; by repeat split.
Qed.

Lemma tick_idle h now st : timers st = [] → tick h now st = st.
Proof. intros Ht. unfold tick. rewrite Ht. destruct st; simpl in *. by subst. Qed.

Lemma tick_early h now st tm :
  timers st = [tm] → now < deadline tm → tick h now st = st.
Proof.
  intros Ht Hlt. unfold tick. rewrite Ht, !filter_cons, !filter_nil.
  destruct (decide (deadline tm ≤ now)) as [|_]; [lia |].
  destruct (decide (¬ deadline tm ≤ now)) as [_|]; [| lia].
  destruct st; simpl in *. by subst.
Qed.

Lemma tick_due h now st tm :
  timers st = [tm] → deadline tm ≤ now →
  tick h now st = timerCallback h now tm (set_timers [] (nextHandle st) st).
Proof.
  intros Ht Hle. unfold tick. rewrite Ht, !filter_cons, !filter_nil.
  destruct (decide (deadline tm ≤ now)) as [_|]; [| lia].
  by destruct (decide (¬ deadline tm ≤ now)) as [|_].
Qed.

Lemma tick_onePending h now st : onePending st → onePending (tick h now st).
Proof.
  intros [Ht | (tm & Ht & Href & Hc)].
  - rewrite tick_idle by done. by left.
  - destruct (decide (deadline tm ≤ now)) as [Hle|Hgt].
    + rewrite (tick_due h now st tm) by done. left.
      by destruct (timerCallback_frame h now tm
                     (set_timers [] (nextHandle st) st)) as (-> & _).
    + rewrite (tick_early h now st tm) by (done || lia). right. eauto.
Qed.

Lemma clearPending_onePending st :
  onePending st → timers (if liveCleanup st then clearPending st else st) = [].
Proof.
  intros [Ht | (tm & Ht & Href & Hc)].
  - unfold clearPending, clearTimeout.
    destruct (liveCleanup st), (updateTimeoutRef st); simpl; try done.
    by rewrite Ht.
  - rewrite Hc. unfold clearPending, clearTimeout. rewrite Href. simpl.
    rewrite Ht, filter_cons, filter_nil.
    by destruct (decide (handle tm ≠ handle tm)).
Qed.

Lemma clearPending_frame st :
  let st1 := if liveCleanup st then clearPending st else st in
  calls st1 = calls st ∧ lastSavedDataRef st1 = lastSavedDataRef st
  ∧ initializedRef st1 = initializedRef st ∧ rendered st1 = rendered st.
Proof.
  unfold clearPending, clearTimeout.
  destruct (liveCleanup st), (updateTimeoutRef st); by simpl.
Qed.

Lemma openCloseEffect_settled fp c p st :
  settled fp c st → settled fp c (openCloseEffect p st).
Proof.
  intros (Ht & Hc & _). unfold openCloseEffect, clearTimeout.
  destruct (isOpen p); [by repeat split |].
  destruct (updateTimeoutRef st); simpl; rewrite ?Ht; by repeat split.
Qed.

Lemma initializeEffect_settled p el c st :
  element p = Some el →
  settled (fingerprint (labels p) (p_series p) el) c st →
  settled (fingerprint (labels p) (p_series p) el) c (initializeEffect p st).
Proof.
  intros Hel (Ht & Hc & Hfp). unfold initializeEffect. rewrite Hel.
  destruct (isOpen p && nonEmptyData p && negb (initializedRef st));
    by repeat split.
Qed.

Lemma liveEffect_settled now p el c st :
  element p = Some el →
  settled (fingerprint (labels p) (p_series p) el) c st →
  timers (liveEffect now p st) = [] ∧ calls (liveEffect now p st) = c.
Proof.
  intros Hel (Ht & Hc & Hfp). unfold liveEffect. rewrite Hel.
  destruct (negb (isOpen p) || negb (nonEmptyData p)); [done |].
  destruct (String.eqb (chartType el) "pie"); [done |].
  destruct (initializedRef st); [| done]. simpl.
  unfold sameAsLastSaved. rewrite (Hfp eq_refl), String.eqb_refl.
  destruct (isInitialLoadRef st); simpl; [done |].
  by rewrite (Hfp eq_refl), String.eqb_refl.
Qed.

Lemma render_unchanged_fingerprint now p el st :
  onePending st →
  element p = Some el →
  lastSavedDataRef st = Some (fingerprint (labels p) (p_series p) el) →
  timers (render now p st) = [] ∧ calls (render now p st) = calls st.
Proof.
  intros Hone Hel Hfp.
  pose proof (clearPending_onePending st Hone) as Hclr.
  destruct (clearPending_frame st) as (Hc1 & Hl1 & _).
  unfold render, useLiveUpdates.
  set (st1 := if liveCleanup st then clearPending st else st) in *.
  assert (settled (fingerprint (labels p) (p_series p) el) (calls st) st1)
    as Hs1 by (repeat split; congruence).
  clearbody st1.
  set (st2 := if match rendered st with
                 | Some q => negb (eqb (isOpen q) (isOpen p))
                 | None => true
                 end then openCloseEffect p st1 else st1).
  assert (settled (fingerprint (labels p) (p_series p) el) (calls st) st2)
    as Hs2.
  { unfold st2. destruct (match rendered st with Some _ => _ | None => _ end);
      [by apply openCloseEffect_settled | done]. }
  clearbody st2.
  pose proof (liveEffect_settled now p el (calls st) _ Hel
                (initializeEffect_settled p el (calls st) st2 Hel Hs2))
    as [Ht Hc].
  destruct (match rendered st with Some q => negb (sameTarget q p) | None => _ end);
    by simpl.
Qed.

Lemma render_edit now p el f0 st :
  onePending st →
  initializedRef st = true →
  lastSavedDataRef st = Some f0 →
  (∃ q, rendered st = Some q ∧ isOpen q = true) →
  isOpen p = true →
  element p = Some el →
  String.eqb (chartType el) "pie" = false →
  nonEmptyData p = true →
  let st' := render now p st in
  calls st' = calls st ∧ initializedRef st' = true
  ∧ lastSavedDataRef st' = Some f0 ∧ rendered st' = Some p
  ∧ armedFor now (labels p) (p_series p) el f0 st'.
Proof.
  intros Hone Hini Hls (q & Hq & Hopen) Hp Hel Hpie Hdata.
  pose proof (clearPending_onePending st Hone) as Hclr.
  destruct (clearPending_frame st) as (Hc1 & Hl1 & Hi1 & Hr1).
  unfold render, useLiveUpdates. rewrite Hq, Hopen, Hp. cbn [eqb negb].
  set (st1 := if liveCleanup st then clearPending st else st) in *.
  clearbody st1.
  assert (initializeEffect p st1 = st1) as ->.
  { unfold initializeEffect. rewrite Hel, Hi1, Hini, Hp, Hdata. done. }
  assert (calls (liveEffect now p st1) = calls st
          ∧ initializedRef (liveEffect now p st1) = true
          ∧ lastSavedDataRef (liveEffect now p st1) = Some f0
          ∧ armedFor now (labels p) (p_series p) el f0 (liveEffect now p st1))
    as (Hc & Hi & Hl & Ha).
  { unfold liveEffect, armedFor.
    rewrite Hel, Hp, Hdata, Hpie, Hi1, Hini. cbn [negb orb].
    unfold sameAsLastSaved. rewrite Hl1, Hls.
    destruct (String.eqb (fingerprint (labels p) (p_series p) el) f0) eqn:Hfp.
    - destruct (isInitialLoadRef st1); simpl; rewrite ?Hl1, ?Hls, ?Hfp;
        simpl; repeat split; congruence.
    - destruct (isInitialLoadRef st1); simpl; rewrite ?Hl1, ?Hls, ?Hfp;
        simpl; unfold clearPending, clearTimeout; simpl;
        destruct (updateTimeoutRef st1); simpl; rewrite ?Hclr, ?filter_nil;
        simpl; (repeat split; try congruence); eexists; by repeat split. }
  unfold armedFor in *.
  destruct (negb (sameTarget q p)); simpl; repeat split; try done;
    destruct (String.eqb (fingerprint (labels p) (p_series p) el) f0); done.
Qed.

Lemma armedFor_onePending now ls ss el f0 st :
  armedFor now ls ss el f0 st → onePending st.
Proof.
  unfold armedFor, onePending.
  destruct (String.eqb (fingerprint ls ss el) f0); [by left |].
  intros (h & Ht & Href & Hc). right. eexists. by repeat split.
Qed.

Lemma hasData_nonEmpty el e : hasData e → nonEmptyData (editProps el e) = true.
Proof.
  intros [Hl Hs]. unfold nonEmptyData, editProps. simpl.
  destruct e as [[t ls] ss]; simpl in *. by destruct ls, ss.
Qed.

Lemma step_edit h el f0 e st bound :
  String.eqb (chartType el) "pie" = false →
  initializedRef st = true → lastSavedDataRef st = Some f0 →
  (∃ q, rendered st = Some q ∧ isOpen q = true) →
  (timers st = [] ∨
   ∃ tm, timers st = [tm] ∧ updateTimeoutRef st = Some (handle tm)
         ∧ liveCleanup st = true ∧ deadline tm = bound + 300) →
  e.1.1 < bound + 300 → hasData e →
  calls (step h st (edit el e)) = calls st
  ∧ afterEdit el f0 e (step h st (edit el e)).
Proof.
  intros Hpie Hini Hls Hq Hpend Hlt Hdata. unfold step, edit.
  assert (tick h e.1.1 st = st) as ->.
  { destruct Hpend as [Ht | (tm & Ht & _ & _ & Hd)].
    - by apply tick_idle.
    - apply (tick_early h _ st tm); [done | lia]. }
  assert (onePending st) as Hone.
  { destruct Hpend as [Ht | (tm & Ht & Href & Hc & _)]; [by left |].
    right. eauto. }
  destruct (render_edit e.1.1 (editProps el e) el f0 st Hone Hini Hls Hq
              eq_refl eq_refl Hpie (hasData_nonEmpty el e Hdata))
    as (Hc & Hi & Hl & Hr & Ha).
  split; [exact Hc |]. by repeat split.
Qed.

Lemma afterEdit_pending el f0 e st :
  afterEdit el f0 e st →
  (∃ q, rendered st = Some q ∧ isOpen q = true)
  ∧ (timers st = [] ∨
     ∃ tm, timers st = [tm] ∧ updateTimeoutRef st = Some (handle tm)
           ∧ liveCleanup st = true ∧ deadline tm = e.1.1 + 300).
Proof.
  intros (_ & _ & Hr & Ha). split; [by eexists |].
  unfold armedFor in Ha.
  destruct (String.eqb (fingerprint e.1.2 e.2 el) f0); [by left |].
  destruct Ha as (h & Ht & Href & Hc). right. eexists. by repeat split.
Qed.

Lemma last_cons_default {A} (l : list A) : ∀ a d,
  List.last (a :: l) d = List.last l a.
Proof.
  induction l as [|b l IH]; intros a d; [done |].
  change (List.last (a :: b :: l) d) with (List.last (b :: l) d).
  by rewrite !IH.
Qed.

(** A run of edits, each within the quiet interval of the previous one,
    makes no call and leaves the session armed for the last edit. *)
Lemma burst_afterEdit h el f0 : ∀ rest e st,
  String.eqb (chartType el) "pie" = false →
  afterEdit el f0 e st →
  withinQuiet e.1.1 rest → Forall hasData rest →
  calls (run h (map (edit el) rest) st) = calls st
  ∧ afterEdit el f0 (List.last rest e) (run h (map (edit el) rest) st).
Proof.
  induction rest as [|e' rest IH]; intros e st Hpie Hafter Hq Hdata.
  - by split.
  - destruct Hq as [Hlt Hq]. apply Forall_cons in Hdata as [Hd Hdata].
    destruct (afterEdit_pending el f0 e st Hafter) as (Hr & Hpend).
    destruct Hafter as (Hini & Hls & _ & _).
    destruct (step_edit h el f0 e' st e.1.1 Hpie Hini Hls Hr Hpend Hlt Hd)
      as (Hc & Hafter').
    destruct (IH e' _ Hpie Hafter' Hq Hdata) as (Hc' & Hlast).
    cbn [map run foldl]. unfold run in *. split; [congruence |].
    by rewrite last_cons_default.
Qed.

Lemma handleSaveData_live h now u st sel :
  rendered st ≫= element = Some sel →
  let st' := (handleSaveData h now u true st).2 in
  calls st' =
    calls st ++ (if pushSnapshot h then [(now, PushSnapshot sel)] else [])
             ++ [(now, UpdateSlideElement (id sel) u (Some "chart-live"))]
  ∧ hasLiveSnapshotRef st' = true.
Proof.
  intros Hsel. unfold handleSaveData, invoke, log. rewrite Hsel. simpl.
  destruct (pushSnapshot h);
    [destruct (throws h (map snd (calls st)) (PushSnapshot sel)) |];
    simpl; rewrite <- ?app_assoc; by split.
Qed.

Lemma timerCallback_calls h now tm st sel :
  rendered st ≫= element = Some sel →
  calls (timerCallback h now tm st) =
    calls st ++ (if pushSnapshot h then [(now, PushSnapshot sel)] else [])
             ++ [(now, UpdateSlideElement (id sel)
                         (padChartData (t_labels tm) (t_series tm)
                            (chartType (t_element tm)) (t_element tm))
                         (Some "chart-live"))].
Proof.
  intros Hsel. unfold timerCallback.
  match goal with
  | |- context [handleSaveData h now ?u true ?s] =>
      destruct (handleSaveData_live h now u s sel Hsel) as [Hc _];
      destruct (handleSaveData h now u true s) as [threw st1]
  end.
  simpl in Hc. by destruct threw.
Qed.

Lemma liveCommits_app st (c : list (nat * call)) l :
  calls st = c ++ l →
  liveCommits st = filter (λ c, isLiveCommit c = true) c
                   ++ filter (λ c, isLiveCommit c = true) l.
Proof. intros Hc. unfold liveCommits. by rewrite Hc, filter_app. Qed.

Lemma render_onePending now p st :
  onePending st → onePending (render now p st).
Proof.
  intros Hone.
  pose proof (clearPending_onePending st Hone) as Hclr.
  unfold render, useLiveUpdates.
  set (st1 := if liveCleanup st then clearPending st else st) in *.
  clearbody st1.
  set (st2 := if match rendered st with
                 | Some q => negb (eqb (isOpen q) (isOpen p))
                 | None => true
                 end then openCloseEffect p st1 else st1).
  assert (timers st2 = []) as Ht2.
  { unfold st2, openCloseEffect, clearTimeout.
    destruct (match rendered st with Some _ => _ | None => _ end); [| done].
    destruct (isOpen p); [done |].
    destruct (updateTimeoutRef st1); simpl; by rewrite ?Hclr. }
  clearbody st2.
  assert (timers (initializeEffect p st2) = []) as Ht3.
  { unfold initializeEffect. destruct (element p); [| done].
    by destruct (isOpen p && nonEmptyData p && negb (initializedRef st2)). }
  set (st3 := initializeEffect p st2) in *. clearbody st3.
  assert (onePending (liveEffect now p st3)) as Hlive.
  { unfold liveEffect, onePending.
    destruct (element p) as [el|]; [| by left].
    destruct (negb (isOpen p) || negb (nonEmptyData p)); [by left |].
    destruct (String.eqb (chartType el) "pie"); [by left |].
    destruct (negb (initializedRef st3)); [by left |].
    destruct (isInitialLoadRef st3 && sameAsLastSaved _ st3); [by left |].
    set (st4 := if isInitialLoadRef st3
                then set_isInitialLoad false st3 else st3).
    assert (timers st4 = []) as Ht4 by (unfold st4; by destruct (isInitialLoadRef st3)).
    clearbody st4.
    destruct (sameAsLastSaved _ st4); [by left |].
    right. unfold clearPending, clearTimeout.
    destruct (updateTimeoutRef st4); simpl;
      rewrite ?Ht4, ?filter_nil; eexists; by repeat split. }
  unfold onePending in *.
  destruct (match rendered st with Some q => negb (sameTarget q p) | None => _ end);
    simpl; exact Hlive.
Qed.

Lemma step_onePending h st ev : onePending st → onePending (step h st ev).
Proof.
  intros Hone. destruct ev as [t p | t | t u]; simpl.
  - apply render_onePending. by apply tick_onePending.
  - by apply tick_onePending.
  - pose proof (tick_onePending h t st Hone) as Ht.
    destruct (handleSaveData_frame h t u false (tick h t st))
      as (Htm & Href & Hc & _).
    unfold onePending in *. rewrite Htm, Href, Hc. exact Ht.
Qed.

(** Every state the session reaches has at most the one timer its ref
    points to. *)
Lemma run_onePending h evs : ∀ st,
  onePending st → onePending (run h evs st).
Proof.
  induction evs as [|ev evs IH]; intros st Hone; [done |].
  apply IH. by apply step_onePending.
Qed.

Lemma initial_onePending : onePending initial.
Proof. by left. Qed.

Lemma liveSaves_spec h sel : ∀ commits st,
  rendered st ≫= element = Some sel →
  pushSnapshot h = true →
  calls (liveSaves h commits st) = calls st ++ flat_map (liveCalls sel) commits
  ∧ rendered (liveSaves h commits st) = rendered st
  ∧ hasLiveSnapshotRef (liveSaves h commits st)
    = (if commits is [] then hasLiveSnapshotRef st else true).
Proof.
  induction commits as [|c commits IH]; intros st Hsel Hpush.
  - simpl. by rewrite app_nil_r.
  - destruct (handleSaveData_live h c.1 c.2 st sel Hsel) as [Hc Hflag].
    destruct (handleSaveData_frame h c.1 c.2 true st) as (_ & _ & _ & Hr & _).
    rewrite Hpush in Hc.
    destruct (IH (handleSaveData h c.1 c.2 true st).2) as (Hc' & Hr' & Hf');
      [by rewrite Hr | done |].
    unfold liveSaves in *. cbn [foldl flat_map].
    rewrite Hc', Hc, Hr', Hr, Hf', Hflag.
    split; [by rewrite <- !app_assoc |]. split; [done |].
    by destruct commits.
Qed.

Lemma count_liveCalls sel commits :
  length (filter (λ c, isSnapshotRequest c = true)
            (flat_map (liveCalls sel) commits)) = length commits
  ∧ length (filter (λ c, isPushSnapshot c = true)
              (flat_map (liveCalls sel) commits)) = length commits.
Proof.
  induction commits as [|c commits [IH1 IH2]]; [done |].
  cbn [flat_map liveCalls app]. rewrite !filter_cons. simpl.
  by rewrite IH1, IH2.
Qed.

Lemma handleSaveData_explicit h now u st sel :
  rendered st ≫= element = Some sel →
  calls (handleSaveData h now u false st).2 =
    calls st ++
    [(now, UpdateSlideElement (id sel) u
             (if hasLiveSnapshotRef st then Some "chart-save" else None))].
Proof.
  intros Hsel. unfold handleSaveData, invoke. rewrite Hsel.
  destruct (hasLiveSnapshotRef st); simpl; by destruct (throws h _ _).
Qed.

Lemma idle_first_edit h el f0 e st :
  String.eqb (chartType el) "pie" = false →
  idle f0 st → hasData e →
  calls (step h st (edit el e)) = calls st
  ∧ afterEdit el f0 e (step h st (edit el e)).
Proof.
  intros Hpie (Ht & Hini & Hls & Hq) Hdata.
  apply (step_edit h el f0 e st e.1.1); try done; [by left | lia].
Qed.

Lemma burst_state h el f0 first rest st :
  String.eqb (chartType el) "pie" = false →
  idle f0 st → hasData first → Forall hasData rest →
  withinQuiet first.1.1 rest →
  calls (run h (map (edit el) (first :: rest)) st) = calls st
  ∧ afterEdit el f0 (List.last rest first)
      (run h (map (edit el) (first :: rest)) st).
Proof.
  intros Hpie Hidle Hd Hds Hq.
  destruct (idle_first_edit h el f0 first st Hpie Hidle Hd) as (Hc & Ha).
  destruct (burst_afterEdit h el f0 rest first _ Hpie Ha Hq Hds) as (Hc' & Hl).
  cbn [map run foldl]. unfold run in *. split; [congruence | exact Hl].
Qed.

Lemma tick_afterEdit h el f0 e st T :
  afterEdit el f0 e st →
  liveCommits (tick h T st) =
    liveCommits st ++
    (if decide (e.1.1 + 300 ≤ T) then
       if String.eqb (fingerprint e.1.2 e.2 el) f0 then []
       else [liveCommitOf el T e]
     else []).
Proof.
  intros (Hini & Hls & Hr & Ha). unfold armedFor in Ha.
  destruct (String.eqb (fingerprint e.1.2 e.2 el) f0).
  { rewrite tick_idle by done. destruct (decide _); by rewrite app_nil_r. }
  destruct Ha as (hd & Ht & Href & Hc).
  destruct (decide (e.1.1 + 300 ≤ T)) as [Hle|Hgt].
  - rewrite (tick_due h T st _ Ht) by (simpl; lia).
    erewrite liveCommits_app; last first.
    { apply (timerCallback_calls h T _ _ el). simpl. by rewrite Hr. }
    simpl. rewrite filter_app. destruct (pushSnapshot h); by simpl.
  - rewrite (tick_early h T st _ Ht) by (simpl; lia). by rewrite app_nil_r.
Qed.

(** C6 (amended): for a burst of edits of an open bar or line chart with
    data, each within 300ms of the previous one, at most one live commit
    is emitted; exactly one when the data of the last edit serialise
    differently from the saved fingerprint, and then it is delivered by the
    first timer run at 300ms or more after the last edit and carries the
    data of the last edit; no commit is delivered before that. *)
Theorem C6_burst_commits_last_state h el f0 st first rest T :
  String.eqb (chartType el) "pie" = false →
  idle f0 st → hasData first → Forall hasData rest →
  withinQuiet first.1.1 rest →
  (List.last rest first).1.1 + 300 ≤ T →
  liveCommits (run h (map (edit el) (first :: rest) ++ [Tick T]) st)
  = liveCommits st ++
    (if String.eqb (fingerprint (List.last rest first).1.2
                      (List.last rest first).2 el) f0
     then [] else [liveCommitOf el T (List.last rest first)])
  ∧ ∀ T', T' < (List.last rest first).1.1 + 300 →
      liveCommits (run h (map (edit el) (first :: rest) ++ [Tick T']) st)
      = liveCommits st.
Proof.
  intros Hpie Hidle Hd Hds Hq HT.
  destruct (burst_state h el f0 first rest st Hpie Hidle Hd Hds Hq)
    as (Hc & Ha).
  assert (liveCommits (run h (map (edit el) (first :: rest)) st)
          = liveCommits st) as Hlc by (unfold liveCommits; by rewrite Hc).
  split.
  - unfold run in *. rewrite foldl_app. cbn [foldl step].
    rewrite (tick_afterEdit h el f0 _ _ T Ha), Hlc.
    by destruct (decide _); [| lia].
  - intros T' HT'. unfold run in *. rewrite foldl_app. cbn [foldl step].
    rewrite (tick_afterEdit h el f0 _ _ T' Ha), Hlc.
    destruct (decide _); [lia | by rewrite app_nil_r].
Qed.

(** C9: when the serialised dataset of a render equals the last-committed
    fingerprint, the render leaves no timer pending and makes no call, so
    no commit reaches the callback and no snapshot is requested, however
    long the session then waits. *)
Theorem C9_unchanged_dataset_is_noop h evs now p el :
  element p = Some el →
  lastSavedDataRef (run h evs initial)
    = Some (fingerprint (labels p) (p_series p) el) →
  timers (render now p (run h evs initial)) = []
  ∧ calls (render now p (run h evs initial)) = calls (run h evs initial)
  ∧ ∀ T, calls (tick h T (render now p (run h evs initial)))
         = calls (run h evs initial).
Proof.
  intros Hel Hfp.
  pose proof (run_onePending h evs initial initial_onePending) as Hone.
  destruct (render_unchanged_fingerprint now p el _ Hone Hel Hfp) as [Ht Hc].
  split; [exact Ht |]. split; [exact Hc |].
  intros T. by rewrite tick_idle.
Qed.

Lemma tick_commit h el f0 e st T :
  afterEdit el f0 e st →
  String.eqb (fingerprint e.1.2 e.2 el) f0 = false →
  e.1.1 + 300 ≤ T →
  tick h T st
  = timerCallback h T
      {| handle := default 0 (updateTimeoutRef st); deadline := e.1.1 + 300;
         t_labels := e.1.2; t_series := e.2; t_element := el |}
      (set_timers [] (nextHandle st) st).
Proof.
  intros (_ & _ & _ & Ha) Hfp HT. unfold armedFor in Ha. rewrite Hfp in Ha.
  destruct Ha as (hd & Ht & -> & _). simpl.
  by rewrite (tick_due h T st _ Ht) by (simpl; lia).
Qed.

(** C2 (amended): the timer callback advances the fingerprint to the
    dataset it is about to commit before it calls the commit callback, so
    the fingerprint is advanced whether or not a collaborator throws. A
    throwing [pushSnapshot] is caught and logged and the document update
    is still issued. Afterwards a render of the same dataset arms no timer
    and makes no call: the same state is not committed again. The session
    keeps accepting changes: whatever the collaborators threw, a later
    edit to a dataset that serialises differently is committed by its own
    timer. *)
Theorem C2_fingerprint_advances_before_commit h el f0 e st T :
  String.eqb (chartType el) "pie" = false →
  afterEdit el f0 e st →
  String.eqb (fingerprint e.1.2 e.2 el) f0 = false →
  e.1.1 + 300 ≤ T →
  lastSavedDataRef (tick h T st) = Some (fingerprint e.1.2 e.2 el)
  ∧ timers (tick h T st) = []
  ∧ liveCommits (tick h T st) = liveCommits st ++ [liveCommitOf el T e]
  ∧ (pushSnapshot h = true →
     throws h (map snd (calls st)) (PushSnapshot el) = true →
     ConsoleError "Failed to snapshot chart edit:" ∈ console (tick h T st)
     ∧ calls (tick h T st)
       = calls st ++ [(T, PushSnapshot el); liveCommitOf el T e])
  ∧ (∀ t p,
       element p = Some el → labels p = e.1.2 → p_series p = e.2 →
       timers (render t p (tick h T st)) = []
       ∧ calls (render t p (tick h T st)) = calls (tick h T st))
  ∧ (∀ e' T',
       hasData e' →
       String.eqb (fingerprint e'.1.2 e'.2 el) (fingerprint e.1.2 e.2 el)
       = false →
       e'.1.1 + 300 ≤ T' →
       liveCommits (run h [edit el e'; Tick T'] (tick h T st))
       = liveCommits (tick h T st) ++ [liveCommitOf el T' e']).
Proof.
  intros Hpie Hafter Hfp HT.
  pose proof (tick_afterEdit h el f0 e st T Hafter) as Hlc.
  rewrite Hfp in Hlc. destruct (decide (e.1.1 + 300 ≤ T)); [| lia].
  pose proof (tick_commit h el f0 e st T Hafter Hfp HT) as Htick.
  destruct Hafter as (Hini & Hls & Hr & Ha).
  set (tm := {| handle := default 0 (updateTimeoutRef st);
                deadline := e.1.1 + 300; t_labels := e.1.2;
                t_series := e.2; t_element := el |}) in *.
  set (st0 := set_timers [] (nextHandle st) st) in *.
  destruct (timerCallback_frame h T tm st0)
    as (Htm & _ & _ & Hr' & Hini' & Hls').
  rewrite <- Htick in Htm, Hr', Hini', Hls'. simpl in Htm, Hr', Hini', Hls'.
  assert (rendered st0 ≫= element = Some el) as Hsel
    by (unfold st0; simpl; by rewrite Hr).
  split; [exact Hls' |]. split; [exact Htm |]. split; [exact Hlc |].
  split; [| split].
  - intros Hpush Hthrow. rewrite Htick. split.
    + unfold timerCallback, handleSaveData, invoke, log. subst st0 tm.
      simpl. rewrite Hr. simpl. rewrite Hpush, Hthrow. simpl.
      match goal with
      | |- context [if ?c then _ else _] => destruct c
      end; simpl; rewrite !elem_of_app, !list_elem_of_singleton; auto.
    + rewrite (timerCallback_calls h T tm st0 el Hsel), Hpush. done.
  - intros t p Hel Hl Hs.
    apply (render_unchanged_fingerprint t p el); [by left | done |].
    by rewrite Hls', Hl, Hs.
  - intros e' T' Hd Hfp' HT'.
    assert (idle (fingerprint e.1.2 e.2 el) (tick h T st)) as Hidle.
    { split; [exact Htm |]. split; [by rewrite Hini' |].
      split; [exact Hls' |]. exists (editProps el e).
      split; [by rewrite Hr' | done]. }
    destruct (idle_first_edit h el _ e' _ Hpie Hidle Hd) as (Hc & Ha').
    cbn [run foldl step].
    rewrite (tick_afterEdit h el _ e' _ T' Ha'), Hfp'.
    destruct (decide (e'.1.1 + 300 ≤ T')); [| lia].
    unfold liveCommits at 1. by rewrite Hc.
Qed.

End WithData.

(** C6, as stated, fails: a burst whose last change restores the saved
    state (here [1] is typed over by [5] and put back within 90ms) emits no
    live commit at all. *)
Lemma C6_restoring_burst_emits_nothing :
  let st := run quietHost [Render 0 (opened 1)] initial in
  let burst := [ (10, ["Q1"; "Q2"], sales 5); (100, ["Q1"; "Q2"], sales 1) ] in
  idle (fingerprint ["Q1"; "Q2"] (sales 1) barChart) st
  ∧ withinQuiet 10 [ (100, ["Q1"; "Q2"], sales 1) ]
  ∧ liveCommits
      (run quietHost (map (edit barChart) burst ++ [Tick 1000]) st) = [].
Proof.
  repeat split; try (simpl; lia); try by vm_compute.
  eexists. by vm_compute.
Qed.

Lemma C6_burst_commits_last_state_witness :
  let st := run quietHost [Render 0 (opened 0)] initial in
  let first := (100, ["Q1"; "Q2"], sales 1) in
  let rest := [ (200, ["Q1"; "Q2"], sales 12);
                (300, ["Q1"; "Q2"], sales 123) ] in
  let f0 := fingerprint ["Q1"; "Q2"] (sales 0) barChart in
  liveCommits
    (run quietHost (map (edit barChart) (first :: rest) ++ [Tick 600]) st)
  = liveCommits st ++
    (if String.eqb (fingerprint (List.last rest first).1.2
                      (List.last rest first).2 barChart) f0
     then [] else [liveCommitOf barChart 600 (List.last rest first)])
  ∧ ∀ T', T' < (List.last rest first).1.1 + 300 →
      liveCommits
        (run quietHost (map (edit barChart) (first :: rest) ++ [Tick T']) st)
      = liveCommits st.
Proof.
  intros st first rest f0.
  apply (C6_burst_commits_last_state quietHost barChart f0 st first rest 600).
  - reflexivity.
  - repeat split; try reflexivity. eexists. split; reflexivity.
  - split; discriminate.
  - repeat constructor; discriminate.
  - simpl. lia.
  - simpl. lia.
Defined.

(** The burst "1", "12", "123" typed at 100ms intervals yields the single
    live commit carrying 123. *)
Example typing_123_commits_once :
  liveCommits
    (run quietHost
       [ Render 0 (opened 0); Render 100 (opened 1); Render 200 (opened 12);
         Render 300 (opened 123); Tick 600 ] initial)
  = [ (600, UpdateSlideElement "chart-1" (["Q1"; "Q2"], sales 123)
              (Some "chart-live")) ].
Proof. by vm_compute. Qed.

Lemma C9_unchanged_dataset_is_noop_witness :
  let evs := [Render 0 (opened 1); Render 10 (opened 5); Tick 310;
              Render 400 (opened 7)] in
  timers (render 450 (opened 5) (run quietHost evs initial)) = []
  ∧ calls (render 450 (opened 5) (run quietHost evs initial))
    = calls (run quietHost evs initial)
  ∧ ∀ T, calls (tick quietHost T
                  (render 450 (opened 5) (run quietHost evs initial)))
         = calls (run quietHost evs initial).
Proof.
  intros evs.
  apply (C9_unchanged_dataset_is_noop quietHost evs 450 (opened 5) barChart);
    reflexivity.
Defined.

(** C1, as stated, fails: one burst on one chart that spans two debounced
    live commits makes two [pushSnapshot] calls, one before each commit;
    the explicit save that follows adds none. *)
Lemma C1_two_live_commits_two_snapshots :
  let burst := [ Render 0 (opened 1); Render 10 (opened 5); Tick 310;
                 Render 400 (opened 7); Tick 700 ] in
  map snd (calls (run quietHost burst initial))
  = [ PushSnapshot barChart;
      UpdateSlideElement "chart-1" (["Q1"; "Q2"], sales 5) (Some "chart-live");
      PushSnapshot barChart;
      UpdateSlideElement "chart-1" (["Q1"; "Q2"], sales 7) (Some "chart-live") ]
  ∧ pushSnapshotCalls (run quietHost burst initial) = 2
  ∧ snapshotRequests
      (run quietHost (burst ++ [Save 800 (["Q1"; "Q2"], sales 7)]) initial)
    = 2.
Proof. by vm_compute. Qed.

(** An explicit save in a fresh session requests exactly one snapshot. *)
Example save_without_edits_requests_one_snapshot :
  snapshotRequests
    (run quietHost [Render 0 (opened 1); Save 50 (["Q1"; "Q2"], sales 1)]
       initial) = 1.
Proof. by vm_compute. Qed.

(** C2, as stated, fails: when the document update of a live commit throws,
    the fingerprint has already been advanced to the attempted dataset; a
    later render of the same dataset arms no timer, so the commit is not
    retried. *)
Lemma C2_failed_commit_is_not_retried :
  let st0 := run failingHost [Render 0 (opened 1); Render 10 (opened 5)]
               initial in
  let st1 := step failingHost st0 (Tick 310) in
  lastSavedDataRef st0 = Some (fingerprint ["Q1"; "Q2"] (sales 1) barChart)
  ∧ lastSavedDataRef st1 = Some (fingerprint ["Q1"; "Q2"] (sales 5) barChart)
  ∧ console st1 = [Uncaught "live update"]
  ∧ timers (step failingHost st1 (Render 320 (opened 5))) = []
  ∧ calls (run failingHost [Render 320 (opened 5); Tick 1000] st1)
    = calls st1.
Proof. by vm_compute. Qed.

Lemma C2_fingerprint_advances_before_commit_witness :
  let h := noHistoryHost in
  let st := run h [Render 0 (opened 1); Render 10 (opened 5)] initial in
  let e := (10, ["Q1"; "Q2"], sales 5) in
  lastSavedDataRef (tick h 310 st)
    = Some (fingerprint e.1.2 e.2 barChart)
  ∧ timers (tick h 310 st) = []
  ∧ liveCommits (tick h 310 st)
    = liveCommits st ++ [liveCommitOf barChart 310 e]
  ∧ (pushSnapshot h = true →
     throws h (map snd (calls st)) (PushSnapshot barChart) = true →
     ConsoleError "Failed to snapshot chart edit:" ∈ console (tick h 310 st)
     ∧ calls (tick h 310 st)
       = calls st ++ [(310, PushSnapshot barChart);
                      liveCommitOf barChart 310 e])
  ∧ (∀ t p,
       element p = Some barChart → labels p = e.1.2 → p_series p = e.2 →
       timers (render t p (tick h 310 st)) = []
       ∧ calls (render t p (tick h 310 st)) = calls (tick h 310 st))
  ∧ (∀ e' T',
       hasData e' →
       String.eqb (fingerprint e'.1.2 e'.2 barChart)
                  (fingerprint e.1.2 e.2 barChart) = false →
       e'.1.1 + 300 ≤ T' →
       liveCommits (run h [edit barChart e'; Tick T'] (tick h 310 st))
       = liveCommits (tick h 310 st) ++ [liveCommitOf barChart T' e']).
Proof.
  intros h st e.
  apply (C2_fingerprint_advances_before_commit h barChart
           (fingerprint ["Q1"; "Q2"] (sales 1) barChart) e st 310).
  - reflexivity.
  - repeat split; try reflexivity. eexists. repeat split; reflexivity.
  - reflexivity.
  - simpl. lia.
Defined.

(** After a live commit whose document update threw, the next edit is
    still committed. *)
Example edit_after_failed_commit_is_committed :
  map snd
    (liveCommits
       (run failingHost
          [ Render 0 (opened 1); Render 10 (opened 5); Tick 310;
            Render 400 (opened 7); Tick 700 ] initial))
  = [ UpdateSlideElement "chart-1" (["Q1"; "Q2"], sales 5) (Some "chart-live");
      UpdateSlideElement "chart-1" (["Q1"; "Q2"], sales 7) (Some "chart-live") ].
Proof. by vm_compute. Qed.

End LiveFacts.

Module FieldFacts.
Import NumericFields FieldAux.

Section WithBuiltins.
Context `{Builtins}.

Lemma array_set_lookup values index v : array_set values index v !! index = Some v.
Proof.
  unfold array_set. destruct (decide (index < length values)) as [Hlt|Hge].
  - by apply list_lookup_insert_eq.
  - rewrite app_assoc, lookup_app_r; rewrite length_app, length_replicate;
      [| lia].
    by replace (index - (length values + (index - length values))) with 0
      by lia.
Qed.

Lemma clampValue_nonneg num : (0 <= clampValue num)%Q.
Proof.
  unfold clampValue, Math_max.
  destruct (Qle_bool 0 _) eqn:Hle; [by apply Qle_bool_iff | apply Qle_refl].
Qed.

Lemma clampValue_negative q : (q < 0)%Q → clampValue (Some q) = 0%Q.
Proof.
  intros Hq. unfold clampValue, Math_max.
  destruct (Qle_bool 0 q) eqn:Hle; [| done].
  apply Qle_bool_iff in Hle. exfalso. by apply (Qlt_not_le q 0).
Qed.

Lemma clampValue_keeps q : (0 <= q)%Q → clampValue (Some q) = q.
Proof.
  intros Hq. unfold clampValue, Math_max.
  by apply Qle_bool_iff in Hq as ->.
Qed.

(** *** Display strings *)

Lemma displayOf_number q : ¬ (q == 0)%Q → displayOf (Num q) = numberToString q.
Proof.
  intros Hq. unfold displayOf. destruct (Qeq_bool q 0) eqn:Hz; [| done].
  by apply Qeq_bool_iff in Hz.
Qed.

Lemma displayOf_blank c : blank c → displayOf c = "".
Proof.
  destruct c as [q| |]; simpl; [| done | done].
  intros Hq. apply Qeq_bool_iff in Hq. by rewrite Hq.
Qed.

(** *** The refresh loops *)

Lemma pie_new_below focused sparse : ∀ values index acc j,
  j < index →
  Pie.newDisplayValues focused sparse index values acc !! j = acc !! j.
Proof.
  induction values as [|v values IH]; intros index acc j Hj; [done |].
  simpl. rewrite IH by lia.
  destruct (decide (index ∈ sparse)); [done |].
  destruct (decide (index ∈ focused)); [done |].
  apply lookup_insert_ne. lia.
Qed.

Lemma pie_new_focused focused sparse : ∀ values index acc j,
  j ∈ focused →
  Pie.newDisplayValues focused sparse index values acc !! j = acc !! j.
Proof.
  induction values as [|v values IH]; intros index acc j Hj; [done |].
  simpl. rewrite IH by done.
  destruct (decide (index ∈ sparse)); [done |].
  destruct (decide (index ∈ focused)); [done |].
  apply lookup_insert_ne. intros ->. done.
Qed.

Lemma pie_new_hole focused sparse : ∀ values index acc j,
  j ∈ sparse →
  Pie.newDisplayValues focused sparse index values acc !! j = acc !! j.
Proof.
  induction values as [|v values IH]; intros index acc j Hj; [done |].
  simpl. rewrite IH by done.
  destruct (decide (index ∈ sparse)); [done |].
  destruct (decide (index ∈ focused)); [done |].
  apply lookup_insert_ne. intros ->. done.
Qed.

Lemma pie_new_beyond focused sparse : ∀ values index acc j,
  index + length values ≤ j →
  Pie.newDisplayValues focused sparse index values acc !! j = acc !! j.
Proof.
  induction values as [|v values IH]; intros index acc j Hj; [done |].
  simpl in *. rewrite IH by lia.
  destruct (decide (index ∈ sparse)); [done |].
  destruct (decide (index ∈ focused)); [done |].
  apply lookup_insert_ne. lia.
Qed.

Lemma pie_new_refreshed focused sparse : ∀ values index acc i v,
  values !! i = Some v → index + i ∉ focused → index + i ∉ sparse →
  Pie.newDisplayValues focused sparse index values acc !! (index + i)
  = Some (displayOf v).
Proof.
  induction values as [|v0 values IH]; intros index acc i v Hv Hnf Hnh;
    [done |].
  simpl. destruct i as [|i].
  - simpl in Hv. injection Hv as ->. rewrite Nat.add_0_r in *.
    rewrite pie_new_below by lia.
    destruct (decide (index ∈ sparse)); [done |].
    destruct (decide (index ∈ focused)); [done |].
    apply lookup_insert_eq.
  - simpl in Hv. replace (index + S i) with (S index + i) in * by lia.
    by apply IH.
Qed.

Lemma row_new_below focused rowIndex : ∀ ss seriesIndex acc j r,
  j < seriesIndex →
  Row.newDisplayValues focused rowIndex seriesIndex ss acc !! (j, r)
  = acc !! (j, r).
Proof.
  induction ss as [|s ss IH]; intros seriesIndex acc j r Hj; [done |].
  simpl. rewrite IH by lia.
  destruct (decide (Row.key seriesIndex rowIndex ∈ focused)); [done |].
  apply lookup_insert_ne. unfold Row.key. intros [= -> _]. lia.
Qed.

Lemma row_new_focused focused rowIndex : ∀ ss seriesIndex acc k,
  k ∈ focused →
  Row.newDisplayValues focused rowIndex seriesIndex ss acc !! k = acc !! k.
Proof.
  induction ss as [|s ss IH]; intros seriesIndex acc k Hk; [done |].
  simpl. rewrite IH by done.
  destruct (decide (Row.key seriesIndex rowIndex ∈ focused)); [done |].
  apply lookup_insert_ne. intros <-. done.
Qed.

Lemma row_new_refreshed focused rowIndex : ∀ ss seriesIndex acc i s,
  ss !! i = Some s → Row.key (seriesIndex + i) rowIndex ∉ focused →
  Row.newDisplayValues focused rowIndex seriesIndex ss acc
    !! Row.key (seriesIndex + i) rowIndex
  = Some (displayOf (at_index (s_values s) rowIndex)).
Proof.
  induction ss as [|s0 ss IH]; intros seriesIndex acc i s Hs Hnf; [done |].
  simpl. destruct i as [|i].
  - simpl in Hs. injection Hs as ->. rewrite Nat.add_0_r in *.
    unfold Row.key in *. rewrite row_new_below by lia.
    destruct (decide ((seriesIndex, rowIndex) ∈ focused)); [done |].
    apply lookup_insert_eq.
  - simpl in Hs. replace (seriesIndex + S i) with (S seriesIndex + i) in *
      by lia.
    by apply IH.
Qed.

(** C8: a keystroke always stores the typed string in the display cache,
    and an empty string commits nothing. A non-empty string typed into the
    pie editor commits the parsed number clamped at 0: 0 for input that is
    not a number or is negative. A non-empty string typed into a table row
    is handed as typed to the table's change handler, which commits 0 for
    input that is not a number and, unless the chart is a bar chart, 0 for
    negative input; the table of a bar chart, whose inputs carry no lower
    bound, commits negative numbers as typed. *)
Theorem C8_keystroke_display_then_commit
    (el : Pie.selected) (index : nat) (value : string) (pst : Pie.state)
    (chartType : string) (rowIndex seriesIndex : nat) (rst : Row.state) :
  (Pie.displayValues (Pie.handleValueChange el index value pst) !! index
   = Some value
   ∧ (value = "" →
      Pie.updateSlideElement (Pie.handleValueChange el index value pst)
      = Pie.updateSlideElement pst)
   ∧ (value ≠ "" →
      Pie.updateSlideElement (Pie.handleValueChange el index value pst)
      = Pie.updateSlideElement pst ++
        [ (Pie.id el,
           {| Pie.u_values :=
                array_set (default [] (Pie.values el)) index
                  (Num (clampValue (Number value)));
              Pie.u_clearSeries := String.eqb (Pie.chartType el) "pie" |}) ])
   ∧ array_set (default [] (Pie.values el)) index
       (Num (clampValue (Number value))) !! index
     = Some (Num (clampValue (Number value)))
   ∧ (0 <= clampValue (Number value))%Q
   ∧ (Number value = None → clampValue (Number value) = 0%Q)
   ∧ (∀ q, Number value = Some q → (q < 0)%Q →
           clampValue (Number value) = 0%Q)
   ∧ (∀ q, Number value = Some q → (0 <= q)%Q →
           clampValue (Number value) = q))
  ∧ (Row.displayValues (Row.handleValueChange rowIndex seriesIndex value rst)
       !! Row.key seriesIndex rowIndex = Some value
     ∧ (value = "" →
        Row.onValueChange (Row.handleValueChange rowIndex seriesIndex value rst)
        = Row.onValueChange rst)
     ∧ (value ≠ "" →
        Row.onValueChange (Row.handleValueChange rowIndex seriesIndex value rst)
        = Row.onValueChange rst ++ [(seriesIndex, rowIndex, value)])
     ∧ (Number value = None → onValueChangeCommits chartType value = 0%Q)
     ∧ (∀ q, Number value = Some q → (0 <= q)%Q →
             onValueChangeCommits chartType value = q)
     ∧ (∀ q, Number value = Some q → (q < 0)%Q →
             onValueChangeCommits chartType value
             = if String.eqb chartType "bar" then q else 0%Q)).
Proof.
  split.
  - unfold Pie.handleValueChange, Pie.commitValue.
    destruct (String.eqb_spec value "") as [->|Hne]; simpl.
    + repeat split; try done.
      * apply lookup_insert_eq.
      * apply array_set_lookup.
      * apply clampValue_nonneg.
      * by intros ->.
      * intros q ->. apply clampValue_negative.
      * intros q ->. apply clampValue_keeps.
    + repeat split; try done.
      * apply lookup_insert_eq.
      * apply array_set_lookup.
      * apply clampValue_nonneg.
      * by intros ->.
      * intros q ->. apply clampValue_negative.
      * intros q ->. apply clampValue_keeps.
  - split; [| split; [| split; [| split; [| split]]]].
    + unfold Row.handleValueChange.
      destruct (negb (String.eqb value "")); apply lookup_insert_eq.
    + intros ->. done.
    + intros Hne. unfold Row.handleValueChange.
      by destruct (String.eqb_spec value "").
    + intros Hnan. unfold onValueChangeCommits.
      destruct (Row.inputMin chartType); rewrite Hnan; [| done].
      unfold clampValue, Math_max. done.
    + intros q Hq Hpos. unfold onValueChangeCommits.
      destruct (Row.inputMin chartType); rewrite Hq; [| done].
      by apply clampValue_keeps.
    + intros q Hq Hneg. unfold onValueChangeCommits, Row.inputMin.
      destruct (String.eqb chartType "bar"); rewrite Hq; [done |].
      by apply clampValue_negative.
Qed.

End WithBuiltins.

(** C7: the update effect of the pie editor misses the fields whose value
    has no entry of its own in the new array. The editor shows [3, 4, 5]
    with nothing focused; the values become the sparse array
    [[3, <hole>, 5]] that the editor itself commits when 5 is typed into
    the third input of a chart with the single value 3. The effect runs
    and refreshes the first and third entries, but the second input keeps
    the string "4" although the value read at that index is [undefined],
    whose display string is empty. The same happens when the values
    become the shorter array [[3]]. The update effect of a table row,
    which reads the value by index, does show the empty string for the
    same sparse array. *)
Theorem C7_missing_entry_keeps_stale_display :
  let st := Pie.valuesEffect sparsePie pieShowing in
  Pie.values sparsePie = Some [Num 3; Undefined; Num 5]
  ∧ Pie.holes sparsePie = {[1]}
  ∧ Pie.updateSlideElement
      (Pie.handleValueChange (pieChart [Num 3]) 2 "5" pieUnmounted)
    = [ ("pie-1", {| Pie.u_values := [Num 3; Undefined; Num 5];
                     Pie.u_clearSeries := true |}) ]
  ∧ Pie.focusedInputs pieShowing = ∅
  ∧ Pie.displayValues pieShowing !! 1 = Some "4"
  ∧ Pie.prevValuesRef st = Pie.values sparsePie
  ∧ Pie.displayValues st !! 0 = Some "3"
  ∧ Pie.displayValues st !! 2 = Some "5"
  ∧ Pie.displayValues st !! 1 = Some "4"
  ∧ displayOf (at_index (default [] (Pie.values sparsePie)) 1) = ""
  ∧ Pie.displayValues (Pie.valuesEffect (pieChart [Num 3]) pieShowing) !! 1
    = Some "4"
  ∧ Row.displayValues rowShowing !! Row.key 0 1 = Some "4"
  ∧ Row.displayValues
      (Row.seriesEffect
         [ {| s_name := "A"; s_values := array_set [Num 3] 2 (Num 5) |} ] 1
         rowShowing) !! Row.key 0 1
    = Some "".
Proof. by vm_compute. Qed.

(** A cleared, focused pie input keeps its empty display string while the
    values change from outside; the other input is refreshed; on blur the
    field commits 0. *)
Example cleared_focused_field_is_kept :
  let st := Pie.valuesEffect (pieChart [Num 9; Num 8]) pieEditing in
  Pie.displayValues st !! 0 = Some ""
  ∧ Pie.displayValues st !! 1 = Some "8"
  ∧ Pie.updateSlideElement
      (Pie.handleValueBlur (pieChart [Num 9; Num 8]) 0 st)
    = [ ("pie-1", {| Pie.u_values := [Num 0; Num 8];
                     Pie.u_clearSeries := true |}) ].
Proof. by vm_compute. Qed.

End FieldFacts.

Module ThumbnailExtra.
Import Thumbnail ThumbnailAux ThumbnailFacts.

Lemma logged_nil w : logged [] w = w.
Proof. destruct w. unfold logged. simpl. by rewrite app_nil_r. Qed.

Lemma logged_logged a b w : logged b (logged a w) = logged (a ++ b) w.
Proof. unfold logged. simpl. by rewrite app_assoc. Qed.

Lemma renderElement_full E el layer w :
  renderElement E el layer w
  = (Ok (layer ++ contribution E el), logged (warnings E el) w).
Proof.
  unfold contribution, warnings, renderElement.
  destruct (String.eqb (el_type el) "text");
    [ by rewrite logged_nil |].
  destruct (String.eqb (el_type el) "shape");
    [ by rewrite logged_nil |].
  destruct (String.eqb (el_type el) "image").
  { run. destruct (imageLoads E (el_src el)); simpl;
      rewrite ?app_nil_r, ?logged_nil; reflexivity. }
  destruct (String.eqb (el_type el) "chart").
  { run. destruct (renderChartToImage E el) as [d|]; simpl;
      [destruct (imageLoads E d); simpl |];
      rewrite ?logged_nil; reflexivity. }
  destruct (String.eqb (el_type el) "table").
  { run. rewrite <- app_assoc, logged_nil. reflexivity. }
  run. by rewrite app_nil_r, logged_nil.
Qed.

Lemma renderElements_full E els : ∀ layer w,
  renderElements E els layer w
  = (Ok (layer ++ concat (map (contribution E) els)),
     logged (concat (map (warnings E) els)) w).
Proof.
  induction els as [|el els IH]; intros layer w; simpl.
  - by rewrite app_nil_r, logged_nil.
  - unfold mbind, M_bind, bind, try_catch.
    rewrite renderElement_full, IH, logged_logged. by rewrite app_assoc.
Qed.

Lemma generateSlideThumbnail_resolved_world E s w :
  backgroundResolves E s = true →
  ∃ n,
    backgroundLayer E s = Some [n] ∧
    generateSlideThumbnail E s w =
      (Ok {| pixelRatio := (1 # 4)%Q; mimeType := "image/png";
             scene := n :: concat (map (contribution E) (elements s)) |},
       {| body := filter (λ c, c ≠ fresh w) (body w ++ [fresh w]);
          stages := filter (λ c, c ≠ fresh w) (stages w ++ [fresh w]);
          console := console w ++ concat (map (warnings E) (elements s));
          fresh := S (fresh w) |}).
Proof.
  intros Hbg. destruct (backgroundLayer_resolves E s Hbg) as (n & Hn).
  exists n. split; [exact Hn |].
  unfold generateSlideThumbnail.
  unfold mbind, M_bind, bind, try_catch, createContainer, appendChild,
    newStage, toDataURL, stage_destroy, removeChild.
  rewrite renderBackground_spec, Hn. cbn [app].
  rewrite renderElements_full. reflexivity.
Qed.

Lemma generateSlideThumbnail_rejected_world E s w :
  backgroundResolves E s = false →
  generateSlideThumbnail E s w =
    (Throw "background image failed to load",
     {| body := body w ++ [fresh w]; stages := stages w ++ [fresh w];
        console := console w ++ [ConsoleError "Error generating thumbnail:"];
        fresh := S (fresh w) |}).
Proof.
  intros Hbg. pose proof (backgroundLayer_fails E s Hbg) as Hn.
  unfold generateSlideThumbnail.
  unfold mbind, M_bind, bind, try_catch, createContainer, appendChild,
    newStage, console_error, throw.
  by rewrite renderBackground_spec, Hn.
Qed.

Lemma filter_fresh (l : list nat) (n : nat) :
  Forall (λ c, c < n) l → filter (λ c, c ≠ n) (l ++ [n]) = l.
Proof.
  intros Hl. rewrite filter_app, filter_cons, filter_nil.
  destruct (decide (n ≠ n)) as [|_]; [done |]. rewrite app_nil_r.
  induction Hl as [|c l Hc _ IH]; [done |].
  rewrite filter_cons, IH. destruct (decide (c ≠ n)); [done | lia].
Qed.

Lemma Forall_lt_S (l : list nat) n :
  Forall (λ c, c < n) l → Forall (λ c, c < S n) l.
Proof.
  intros Hl. eapply Forall_impl; [exact Hl |]. intros c Hc. simpl in *. lia.
Qed.

(** *** Background *)

(** X1: a background image that loads is painted stretched over the whole
    surface as the bottom node of the scene, whatever gradient or colour
    the slide also names. *)
Theorem background_image_takes_priority E s w :
  truthy_str (backgroundImage s) = true →
  imageLoads E (default "" (backgroundImage s)) = true →
  ∃ url w',
    generateSlideThumbnail E s w = (Ok url, w')
    ∧ scene url
      = KonvaImage 0 0 1024 576 (default "" (backgroundImage s)) 0
        :: concat (map (contribution E) (elements s)).
Proof.
  intros Htruthy Hload.
  assert (backgroundResolves E s = true) as Hbg.
  { unfold backgroundResolves. by rewrite Hload, orb_true_r. }
  destruct (generateSlideThumbnail_resolves E s w Hbg)
    as (n & w' & Hn & Hrun & _).
  exists {| pixelRatio := (1 # 4)%Q; mimeType := "image/png";
            scene := n :: concat (map (contribution E) (elements s)) |}, w'.
  split; [exact Hrun |]. cbn [scene]. f_equal.
  unfold backgroundLayer, renderBackground in Hn. rewrite Htruthy in Hn.
  run. rewrite Hload in Hn. by injection Hn as <-.
Qed.

Lemma background_image_takes_priority_witness :
  ∃ url w',
    generateSlideThumbnail offlineEnv mixedSlide usedWorld = (Ok url, w')
    ∧ scene url
      = KonvaImage 0 0 1024 576 (default "" (backgroundImage mixedSlide)) 0
        :: concat (map (contribution offlineEnv) (elements mixedSlide)).
Proof.
  apply (background_image_takes_priority offlineEnv mixedSlide usedWorld);
    reflexivity.
Defined.

(** X2: a slide without a background image always resolves, and its bottom
    node is one full-surface rectangle: the gradient when the slide has
    one (radial only for type [radial], linear otherwise, over the given
    colours or a single white), else the background colour, else white. *)
Theorem background_without_image E s w :
  truthy_str (backgroundImage s) = false →
  ∃ url w' fill,
    generateSlideThumbnail E s w = (Ok url, w')
    ∧ scene url
      = KonvaRect 0 0 1024 576 fill None None None 0
        :: concat (map (contribution E) (elements s))
    ∧ fill =
      match backgroundGradient s with
      | Some g =>
          if String.eqb (str_or (g_type g) "linear") "radial"
          then FillRadialGradient 512 288 0 1024
                 (colorStops (default ["#ffffff"] (g_colors g)))
          else FillLinearGradient 0 0 1024 576
                 (colorStops (default ["#ffffff"] (g_colors g)))
      | None => FillColor (str_or (backgroundColor s) "#ffffff")
      end.
Proof.
  intros Hfalsy.
  assert (backgroundResolves E s = true) as Hbg.
  { unfold backgroundResolves. by rewrite Hfalsy. }
  destruct (generateSlideThumbnail_resolves E s w Hbg)
    as (n & w' & Hn & Hrun & _).
  unfold backgroundLayer, renderBackground in Hn. rewrite Hfalsy in Hn.
  destruct (backgroundGradient s) as [g|].
  - run. injection Hn as <-. do 3 eexists.
    split; [exact Hrun |]. split; [reflexivity |].
    by destruct (String.eqb (str_or (g_type g) "linear") "radial").
  - destruct (truthy_str (backgroundColor s)) eqn:Hc; run;
      injection Hn as <-; do 3 eexists;
      (split; [exact Hrun |]); (split; [reflexivity |]); [done |].
    unfold str_or, truthy_str in *.
    destruct (backgroundColor s) as [c|]; [| done].
    by destruct (String.eqb c "").
Qed.

Lemma background_without_image_witness :
  ∃ url w' fill,
    generateSlideThumbnail offlineEnv gradientSlide usedWorld = (Ok url, w')
    ∧ scene url
      = KonvaRect 0 0 1024 576 fill None None None 0
        :: concat (map (contribution offlineEnv) (elements gradientSlide))
    ∧ fill =
      match backgroundGradient gradientSlide with
      | Some g =>
          if String.eqb (str_or (g_type g) "linear") "radial"
          then FillRadialGradient 512 288 0 1024
                 (colorStops (default ["#ffffff"] (g_colors g)))
          else FillLinearGradient 0 0 1024 576
                 (colorStops (default ["#ffffff"] (g_colors g)))
      | None => FillColor (str_or (backgroundColor gradientSlide) "#ffffff")
      end.
Proof.
  apply (background_without_image offlineEnv gradientSlide usedWorld).
  reflexivity.
Defined.

Lemma Qnat_nonneg n : (0 <= Qnat n)%Q.
Proof. unfold Qnat. change 0%Q with (inject_Z 0). rewrite <- Zle_Qle. lia. Qed.

Lemma Qnat_le n m : n ≤ m → (Qnat n <= Qnat m)%Q.
Proof. intros Hle. unfold Qnat. rewrite <- Zle_Qle. lia. Qed.

Lemma Qnat_pos n : 0 < n → (0 < Qnat n)%Q.
Proof. intros Hn. unfold Qnat. change 0%Q with (inject_Z 0). rewrite <- Zlt_Qlt. lia. Qed.

Lemma colorStops_lookup colors i stop c :
  colorStops colors !! i = Some (stop, c) →
  colors !! i = Some c
  ∧ stop = if decide (1 < length colors)
           then (Qnat i / Qnat (length colors - 1))%Q else 0%Q.
Proof.
  unfold colorStops. rewrite list_lookup_imap.
  destruct (colors !! i) as [c'|]; [| done]. simpl. by intros [= <- <-].
Qed.

(** X3: the gradient stops carry the colours in their order; every stop
    lies in [0, 1], the first is 0 and, with two or more colours, the last
    is 1. *)
Theorem colorStops_cover_unit_interval colors :
  map snd (colorStops colors) = colors
  ∧ (∀ i stop c, colorStops colors !! i = Some (stop, c) →
       (0 <= stop)%Q ∧ (stop <= 1)%Q)
  ∧ (∀ stop c, colorStops colors !! 0 = Some (stop, c) → (stop == 0)%Q)
  ∧ (∀ stop c, 1 < length colors →
       colorStops colors !! (length colors - 1) = Some (stop, c) →
       (stop == 1)%Q).
Proof.
  split; [| split; [| split]].
  - apply list_eq. intros i. unfold colorStops.
    rewrite list_lookup_fmap, list_lookup_imap.
    by destruct (colors !! i).
  - intros i stop c Hi. apply colorStops_lookup in Hi as [Hc ->].
    apply lookup_lt_Some in Hc.
    destruct (decide (1 < length colors)) as [Hn|_]; [| done].
    split.
    + apply Qle_shift_div_l; [apply Qnat_pos; lia |].
      rewrite Qmult_0_l. apply Qnat_nonneg.
    + apply Qle_shift_div_r; [apply Qnat_pos; lia |].
      rewrite Qmult_1_l. apply Qnat_le. lia.
  - intros stop c Hi. apply colorStops_lookup in Hi as [_ ->].
    destruct (decide (1 < length colors)); [| done].
    unfold Qdiv. apply Qmult_0_l.
  - intros stop c Hn Hi. apply colorStops_lookup in Hi as [_ ->].
    destruct (decide (1 < length colors)); [| done].
    unfold Qdiv. apply Qmult_inv_r.
    intros Hz. pose proof (Qnat_pos (length colors - 1)) as Hp.
    rewrite Hz in Hp. apply (Qlt_irrefl 0), Hp. lia.
Qed.

(** *** Elements *)

(** X4: a table element with r+1 rows and c+1 columns paints its outline
    followed by r horizontal and c vertical grid lines; without a row or
    column count it paints the outline alone. No cell content is
    painted. *)
Theorem table_paints_outline_and_grid E el :
  el_type el = "table" →
  ∃ grid,
    contribution E el = tableRect el :: grid
    ∧ Forall (λ n, match n with KonvaLine _ _ _ => True | _ => False end) grid
    ∧ length grid =
      match el_rows el, el_cols el with
      | Some (S r), Some (S c) => r + c
      | _, _ => 0
      end.
Proof.
  intros Hty. exists (tableGrid el).
  split.
  - unfold contribution, renderElement. rewrite Hty. reflexivity.
  - unfold tableGrid.
    destruct (el_rows el) as [[|r]|], (el_cols el) as [[|c]|]; simpl;
      try (split; [constructor | reflexivity]).
    split.
    + apply Forall_app. split; apply Forall_fmap, Forall_forall; done.
    + rewrite length_app, !length_map, !length_seq. lia.
Qed.

Lemma table_paints_outline_and_grid_witness :
  ∃ grid,
    contribution offlineEnv (sampleElement "table" "" (Some 3) (Some 2))
    = tableRect (sampleElement "table" "" (Some 3) (Some 2)) :: grid
    ∧ Forall (λ n, match n with KonvaLine _ _ _ => True | _ => False end) grid
    ∧ length grid =
      match el_rows (sampleElement "table" "" (Some 3) (Some 2)),
            el_cols (sampleElement "table" "" (Some 3) (Some 2)) with
      | Some (S r), Some (S c) => r + c
      | _, _ => 0
      end.
Proof.
  apply (table_paints_outline_and_grid offlineEnv
           (sampleElement "table" "" (Some 3) (Some 2))).
  reflexivity.
Defined.

Lemma Math_min_le a b : (Math_min a b <= a)%Q ∧ (Math_min a b <= b)%Q.
Proof.
  unfold Math_min. destruct (Qle_bool a b) eqn:Hle.
  - split; [apply Qle_refl | by apply Qle_bool_iff].
  - split; [| apply Qle_refl].
    apply Qlt_le_weak, Qnot_le_lt. intros Hab.
    apply Qle_bool_iff in Hab. congruence.
Qed.

(** X5: a circle shape is centred in the element's box and its radius is
    at most half the width and at most half the height of the box, so it
    never leaves the box. *)
Theorem circle_stays_in_box E el :
  el_type el = "shape" →
  str_or (el_shapeType el) "rectangle" = "circle" →
  ∃ radius fill stroke strokeWidth rotation,
    contribution E el =
      [ KonvaCircle (num_or (el_x el) 0 + num_or (el_width el) 100 / 2)%Q
          (num_or (el_y el) 0 + num_or (el_height el) 100 / 2)%Q
          radius fill stroke strokeWidth rotation ]
    ∧ (radius <= num_or (el_width el) 100 / 2)%Q
    ∧ (radius <= num_or (el_height el) 100 / 2)%Q.
Proof.
  intros Hty Hshape.
  unfold contribution, renderElement. rewrite Hty. simpl.
  unfold renderShape. rewrite Hshape. simpl.
  do 5 eexists. split; [reflexivity |]. apply Math_min_le.
Qed.

Lemma circle_stays_in_box_witness :
  ∃ radius fill stroke strokeWidth rotation,
    contribution offlineEnv circleElement =
      [ KonvaCircle
          (num_or (el_x circleElement) 0
           + num_or (el_width circleElement) 100 / 2)%Q
          (num_or (el_y circleElement) 0
           + num_or (el_height circleElement) 100 / 2)%Q
          radius fill stroke strokeWidth rotation ]
    ∧ (radius <= num_or (el_width circleElement) 100 / 2)%Q
    ∧ (radius <= num_or (el_height circleElement) 100 / 2)%Q.
Proof.
  apply (circle_stays_in_box offlineEnv circleElement); reflexivity.
Defined.

Lemma warnings_spec E el :
  Forall (λ e, isWarn e = true) (warnings E el)
  ∧ length (warnings E el) = if resourceFails E el then 1 else 0.
Proof.
  unfold warnings, renderElement, resourceFails, imageFails, chartFails.
  destruct (String.eqb (el_type el) "text") eqn:Htext.
  { apply String.eqb_eq in Htext. rewrite Htext. simpl. by split. }
  destruct (String.eqb (el_type el) "shape") eqn:Hshape.
  { apply String.eqb_eq in Hshape. rewrite Hshape. simpl. by split. }
  destruct (String.eqb (el_type el) "image") eqn:Himage.
  { apply String.eqb_eq in Himage. rewrite Himage. run.
    destruct (imageLoads E (el_src el)); simpl;
      (split; [repeat constructor | reflexivity]). }
  destruct (String.eqb (el_type el) "chart") eqn:Hchart.
  { run. destruct (renderChartToImage E el) as [d|]; simpl;
      [destruct (imageLoads E d); simpl |];
      (split; [repeat constructor | reflexivity]). }
  simpl. destruct (String.eqb (el_type el) "table"); simpl; by split.
Qed.

Lemma warnings_total E els :
  Forall (λ e, isWarn e = true) (concat (map (warnings E) els))
  ∧ length (concat (map (warnings E) els))
    = length (filter (λ el, resourceFails E el = true) els).
Proof.
  induction els as [|el els [IHw IHl]]; [by split |].
  destruct (warnings_spec E el) as [Hw Hl].
  cbn [map concat]. rewrite filter_cons, length_app, Hl, IHl.
  split; [by apply Forall_app |].
  destruct (resourceFails E el); by destruct (decide _).
Qed.

(** X6: a render that resolves writes exactly one warning to the console
    for every element whose image or chart resource fails, and nothing
    else. *)
Theorem one_warning_per_failed_resource E s w :
  backgroundResolves E s = true →
  ∃ url w' entries,
    generateSlideThumbnail E s w = (Ok url, w')
    ∧ console w' = console w ++ entries
    ∧ Forall (λ e, isWarn e = true) entries
    ∧ length entries
      = length (filter (λ el, resourceFails E el = true) (elements s)).
Proof.
  intros Hbg.
  destruct (generateSlideThumbnail_resolved_world E s w Hbg) as (n & _ & ->).
  destruct (warnings_total E (elements s)) as [Hw Hl].
  do 3 eexists. split; [reflexivity |]. by split.
Qed.

Lemma one_warning_per_failed_resource_witness :
  ∃ url w' entries,
    generateSlideThumbnail offlineEnv mixedSlide usedWorld = (Ok url, w')
    ∧ console w' = console usedWorld ++ entries
    ∧ Forall (λ e, isWarn e = true) entries
    ∧ length entries
      = length (filter (λ el, resourceFails offlineEnv el = true)
                  (elements mixedSlide)).
Proof.
  apply (one_warning_per_failed_resource offlineEnv mixedSlide usedWorld).
  reflexivity.
Defined.

Lemma unknown_contributes_nothing E el :
  knownType el = false → contribution E el = [] ∧ warnings E el = [].
Proof.
  unfold knownType. intros Hk. apply bool_decide_eq_false in Hk.
  assert (∀ t, t ∈ ["text"; "shape"; "image"; "chart"; "table"] →
               String.eqb (el_type el) t = false) as Hne.
  { intros t Ht. apply String.eqb_neq. intros Heq. apply Hk. by rewrite Heq. }
  unfold contribution, warnings, renderElement.
  rewrite !Hne by (repeat constructor). by split.
Qed.

Lemma known_elements_suffice E els :
  concat (map (contribution E) (filter (λ el, knownType el = true) els))
  = concat (map (contribution E) els)
  ∧ concat (map (warnings E) (filter (λ el, knownType el = true) els))
    = concat (map (warnings E) els).
Proof.
  induction els as [|el els [IHc IHw]]; [by split |].
  rewrite filter_cons. cbn [map concat].
  destruct (decide (knownType el = true)) as [_|Hk].
  - cbn [map concat]. by rewrite IHc, IHw.
  - apply not_true_is_false in Hk.
    destruct (unknown_contributes_nothing E el Hk) as [-> ->].
    by rewrite IHc, IHw.
Qed.

(** X7: elements whose type is none of text, shape, image, chart and table
    are passed over silently: removing them from the slide changes neither
    the outcome of the render nor the page nor the console. *)
Theorem unknown_elements_are_ignored E s w :
  generateSlideThumbnail E
    (withElements s (filter (λ el, knownType el = true) (elements s))) w
  = generateSlideThumbnail E s w.
Proof.
  set (s' := withElements s _).
  destruct (known_elements_suffice E (elements s)) as [Hc Hw].
  destruct (backgroundResolves E s) eqn:Hbg.
  - destruct (generateSlideThumbnail_resolved_world E s w Hbg)
      as (n & Hn & ->).
    destruct (generateSlideThumbnail_resolved_world E s' w Hbg)
      as (n' & Hn' & ->).
    change (backgroundLayer E s') with (backgroundLayer E s) in Hn'.
    assert (n' = n) as -> by congruence.
    unfold s'. cbn [elements withElements]. by rewrite Hc, Hw.
  - rewrite (generateSlideThumbnail_rejected_world E s w Hbg).
    by rewrite (generateSlideThumbnail_rejected_world E s' w Hbg).
Qed.

(** *** The page *)

(** X8: on a page whose containers were all created by earlier calls, a
    render that resolves leaves the document body and the set of live
    stages exactly as it found them. *)
Theorem resolved_render_restores_page E s w :
  wellFormed w →
  backgroundResolves E s = true →
  ∃ url w',
    generateSlideThumbnail E s w = (Ok url, w')
    ∧ body w' = body w ∧ stages w' = stages w ∧ wellFormed w'.
Proof.
  intros [Hb Hs] Hbg.
  destruct (generateSlideThumbnail_resolved_world E s w Hbg) as (n & _ & ->).
  do 2 eexists. split; [reflexivity |]. cbn.
  rewrite !filter_fresh by done.
  repeat split; try done; by apply Forall_lt_S.
Qed.

Lemma resolved_render_restores_page_witness :
  ∃ url w',
    generateSlideThumbnail offlineEnv mixedSlide usedWorld = (Ok url, w')
    ∧ body w' = body usedWorld ∧ stages w' = stages usedWorld
    ∧ wellFormed w'.
Proof.
  apply (resolved_render_restores_page offlineEnv mixedSlide usedWorld).
  - split; repeat constructor.
  - reflexivity.
Defined.

Lemma thumbnailOf_resolved E s :
  backgroundResolves E s = true →
  ∃ n, backgroundLayer E s = Some [n] ∧
       thumbnailOf E s =
         Some (s_id s,
               {| pixelRatio := (1 # 4)%Q; mimeType := "image/png";
                  scene := n :: concat (map (contribution E) (elements s)) |}).
Proof.
  intros Hbg.
  destruct (generateSlideThumbnail_resolved_world E s empty_world Hbg)
    as (n & Hn & Hrun).
  exists n. split; [exact Hn |]. unfold thumbnailOf. by rewrite Hrun.
Qed.

Lemma thumbnailOf_rejected E s :
  backgroundResolves E s = false → thumbnailOf E s = None.
Proof.
  intros Hbg. unfold thumbnailOf.
  by rewrite (generateSlideThumbnail_rejected_world E s empty_world Hbg).
Qed.

Lemma thumbnailLoop_page E slides : ∀ thumbnails w,
  wellFormed w →
  ∃ w',
    thumbnailLoop E slides thumbnails w
      = (Ok (thumbnails ++ omap (thumbnailOf E) slides), w')
    ∧ wellFormed w'
    ∧ length (body w') = length (body w) + length (rejected E slides)
    ∧ length (stages w') = length (stages w) + length (rejected E slides).
Proof.
  induction slides as [|s slides IH]; intros thumbnails w [Hb Hs].
  - exists w. simpl. rewrite app_nil_r. repeat split; try done; simpl; lia.
  - cbn [thumbnailLoop omap list_omap]. unfold rejected. rewrite filter_cons.
    unfold mbind, M_bind, bind, try_catch.
    destruct (backgroundResolves E s) eqn:Hbg.
    + destruct (generateSlideThumbnail_resolved_world E s w Hbg)
        as (n & Hn & ->).
      destruct (thumbnailOf_resolved E s Hbg) as (n' & Hn' & ->).
      assert (n' = n) as -> by congruence. cbn.
      match goal with
      | |- context [thumbnailLoop E slides ?t ?w1] =>
          destruct (IH t w1) as (w' & -> & Hwf & Hlb & Hls)
      end.
      { cbn. rewrite !filter_fresh by done. split; by apply Forall_lt_S. }
      exists w'. cbn in Hlb, Hls. rewrite !filter_fresh in Hlb, Hls by done.
      destruct (decide (true = false)) as [|_]; [done |].
      split; [by rewrite <- app_assoc |].
      split; [exact Hwf |]. split; [exact Hlb | exact Hls].
    + rewrite (generateSlideThumbnail_rejected_world E s w Hbg).
      rewrite (thumbnailOf_rejected E s Hbg). unfold console_error. cbn.
      match goal with
      | |- context [thumbnailLoop E slides ?t ?w1] =>
          destruct (IH t w1) as (w' & -> & Hwf & Hlb & Hls)
      end.
      { cbn. split; (apply Forall_app; split;
          [by apply Forall_lt_S | repeat constructor; lia]). }
      exists w'. cbn in Hlb, Hls. rewrite !length_app in Hlb, Hls.
      destruct (decide (false = false)) as [_|]; [| done].
      split; [done |]. split; [exact Hwf |].
      fold (rejected E slides). cbn [length] in *. lia.
Qed.

(** X9: the batch never cleans up after a slide whose render rejects: on a
    page whose containers were all created by earlier calls, it returns
    with one more container attached to the document body, and one more
    live stage, for every such slide. *)
Theorem batch_leaks_one_container_per_rejected_slide E slides w :
  wellFormed w →
  ∃ thumbnails w',
    generateAllSlideThumbnails E slides w = (Ok thumbnails, w')
    ∧ length (body w') = length (body w) + length (rejected E slides)
    ∧ length (stages w') = length (stages w) + length (rejected E slides)
    ∧ wellFormed w'.
Proof.
  intros Hwf.
  destruct (thumbnailLoop_page E slides [] w Hwf) as (w' & Hrun & ? & ? & ?).
  unfold generateAllSlideThumbnails. rewrite Hrun. by do 2 eexists.
Qed.

Lemma batch_leaks_one_container_per_rejected_slide_witness :
  ∃ thumbnails w',
    generateAllSlideThumbnails offlineEnv sampleDeck usedWorld
      = (Ok thumbnails, w')
    ∧ length (body w')
      = length (body usedWorld) + length (rejected offlineEnv sampleDeck)
    ∧ length (stages w')
      = length (stages usedWorld) + length (rejected offlineEnv sampleDeck)
    ∧ wellFormed w'.
Proof.
  apply (batch_leaks_one_container_per_rejected_slide offlineEnv sampleDeck
           usedWorld).
  split; repeat constructor.
Defined.

(** X10: the thumbnails of a deck made of two decks are the thumbnails of
    the first followed by those of the second, whatever the state of the
    page each batch starts from. *)
Theorem batch_of_concatenated_decks E a b w wa wb :
  ∃ ra rb,
    (generateAllSlideThumbnails E a wa).1 = Ok ra
    ∧ (generateAllSlideThumbnails E b wb).1 = Ok rb
    ∧ (generateAllSlideThumbnails E (a ++ b) w).1 = Ok (ra ++ rb).
Proof.
  unfold generateAllSlideThumbnails.
  destruct (thumbnailLoop_spec E a [] wa) as (wa' & ->).
  destruct (thumbnailLoop_spec E b [] wb) as (wb' & ->).
  destruct (thumbnailLoop_spec E (a ++ b) [] w) as (w' & ->).
  do 2 eexists. repeat split. simpl. by rewrite omap_app.
Qed.

(** X11: the slide ids of the returned pairs are the ids of the slides
    whose render resolves, in deck order, each paired with the thumbnail
    of that very slide. *)
Theorem batch_pairs_ids_in_deck_order E slides w :
  ∃ thumbnails w',
    generateAllSlideThumbnails E slides w = (Ok thumbnails, w')
    ∧ map fst thumbnails
      = map s_id (filter (λ s, backgroundResolves E s = true) slides)
    ∧ ∀ id url, (id, url) ∈ thumbnails →
        ∃ s, s ∈ slides ∧ s_id s = id
             ∧ (generateSlideThumbnail E s empty_world).1 = Ok url.
Proof.
  unfold generateAllSlideThumbnails.
  destruct (thumbnailLoop_spec E slides [] w) as (w' & ->).
  do 2 eexists. split; [reflexivity |]. cbn [app]. split.
  - induction slides as [|s slides IH]; [done |].
    cbn [omap list_omap]. rewrite filter_cons.
    destruct (backgroundResolves E s) eqn:Hbg.
    + destruct (thumbnailOf_resolved E s Hbg) as (n & _ & ->).
      destruct (decide (true = true)) as [_|]; [| done]. cbn.
      by rewrite <- IH.
    + rewrite (thumbnailOf_rejected E s Hbg).
      by destruct (decide (false = true)).
  - intros id url Hin. apply list_elem_of_omap in Hin as (s & Hs & Hof).
    exists s. split; [exact Hs |]. unfold thumbnailOf in Hof.
    destruct (generateSlideThumbnail E s empty_world) as [[u|?] ?];
      [| done].
    by injection Hof as <- <-.
Qed.

End ThumbnailExtra.

Module LiveExtra.
Import LiveSession LiveAux LiveFacts.

Section WithData.
Context `{ChartData}.

(** The hook makes no host call and does not touch the snapshot flag. *)
Lemma clearPending_host st :
  calls (clearPending st) = calls st
  ∧ hasLiveSnapshotRef (clearPending st) = hasLiveSnapshotRef st
  ∧ rendered (clearPending st) = rendered st.
Proof. unfold clearPending, clearTimeout. by destruct (updateTimeoutRef st). Qed.

Lemma openCloseEffect_host p st :
  calls (openCloseEffect p st) = calls st
  ∧ hasLiveSnapshotRef (openCloseEffect p st) = hasLiveSnapshotRef st
  ∧ rendered (openCloseEffect p st) = rendered st.
Proof.
  unfold openCloseEffect, clearTimeout.
  destruct (isOpen p); [done |]. by destruct (updateTimeoutRef st).
Qed.

Lemma initializeEffect_host p st :
  calls (initializeEffect p st) = calls st
  ∧ hasLiveSnapshotRef (initializeEffect p st) = hasLiveSnapshotRef st
  ∧ rendered (initializeEffect p st) = rendered st.
Proof.
  unfold initializeEffect. destruct (element p); [| done].
  by destruct (isOpen p && nonEmptyData p && negb (initializedRef st)).
Qed.

Lemma liveEffect_host now p st :
  calls (liveEffect now p st) = calls st
  ∧ hasLiveSnapshotRef (liveEffect now p st) = hasLiveSnapshotRef st
  ∧ rendered (liveEffect now p st) = rendered st.
Proof.
  unfold liveEffect. destruct (element p) as [el|]; [| done].
  destruct (negb (isOpen p) || negb (nonEmptyData p)); [done |].
  destruct (String.eqb (chartType el) "pie"); [done |].
  destruct (negb (initializedRef st)); [done |].
  destruct (isInitialLoadRef st && sameAsLastSaved _ st); [done |].
  set (st4 := if isInitialLoadRef st then set_isInitialLoad false st else st).
  assert (calls st4 = calls st
          ∧ hasLiveSnapshotRef st4 = hasLiveSnapshotRef st
          ∧ rendered st4 = rendered st) as (Hc & Hf & Hr)
    by (unfold st4; by destruct (isInitialLoadRef st)).
  clearbody st4.
  destruct (sameAsLastSaved _ st4); [done |].
  destruct (clearPending_host st4) as (Hc' & Hf' & Hr').
  simpl. rewrite Hc', Hf', Hr'. by repeat split.
Qed.

Lemma useLiveUpdates_host now p st :
  calls (useLiveUpdates now p st) = calls st
  ∧ hasLiveSnapshotRef (useLiveUpdates now p st) = hasLiveSnapshotRef st
  ∧ rendered (useLiveUpdates now p st) = rendered st.
Proof.
  unfold useLiveUpdates.
  set (st1 := if liveCleanup st then clearPending st else st).
  assert (calls st1 = calls st
          ∧ hasLiveSnapshotRef st1 = hasLiveSnapshotRef st
          ∧ rendered st1 = rendered st) as (Hc1 & Hf1 & Hr1).
  { unfold st1. destruct (liveCleanup st); [apply clearPending_host | done]. }
  clearbody st1.
  set (st2 := if match rendered st with
                 | Some q => negb (eqb (isOpen q) (isOpen p))
                 | None => true
                 end then openCloseEffect p st1 else st1).
  assert (calls st2 = calls st
          ∧ hasLiveSnapshotRef st2 = hasLiveSnapshotRef st
          ∧ rendered st2 = rendered st) as (Hc2 & Hf2 & Hr2).
  { unfold st2. destruct (match rendered st with Some _ => _ | None => _ end);
      [| done].
    destruct (openCloseEffect_host p st1) as (-> & -> & ->). done. }
  clearbody st2.
  destruct (initializeEffect_host p st2) as (Hc3 & Hf3 & Hr3).
  destruct (liveEffect_host now p (initializeEffect p st2))
    as (Hc4 & Hf4 & Hr4).
  repeat split; congruence.
Qed.

Lemma render_host now p st :
  calls (render now p st) = calls st
  ∧ rendered (render now p st) = Some p
  ∧ hasLiveSnapshotRef (render now p st)
    = match rendered st with
      | Some q => if sameTarget q p then hasLiveSnapshotRef st else false
      | None => false
      end.
Proof.
  destruct (useLiveUpdates_host now p st) as (Hc & Hf & Hr).
  unfold render.
  destruct (rendered st) as [q|]; [destruct (sameTarget q p) |]; simpl;
    by repeat split.
Qed.

(** After a render nothing is pending, or exactly the timer this render
    armed with its own data. *)
Lemma render_pending now p st :
  onePending st →
  timers (render now p st) = [] ∨
  ∃ h el, element p = Some el
          ∧ timers (render now p st)
            = [ {| handle := h; deadline := now + 300; t_labels := labels p;
                   t_series := p_series p; t_element := el |} ]
          ∧ updateTimeoutRef (render now p st) = Some h
          ∧ liveCleanup (render now p st) = true.
Proof.
  intros Hone.
  pose proof (clearPending_onePending st Hone) as Hclr.
  unfold render, useLiveUpdates.
  set (st1 := if liveCleanup st then clearPending st else st) in *.
  clearbody st1.
  set (st2 := if match rendered st with
                 | Some q => negb (eqb (isOpen q) (isOpen p))
                 | None => true
                 end then openCloseEffect p st1 else st1).
  assert (timers st2 = []) as Ht2.
  { unfold st2, openCloseEffect, clearTimeout.
    destruct (match rendered st with Some _ => _ | None => _ end); [| done].
    destruct (isOpen p); [done |].
    destruct (updateTimeoutRef st1); simpl; by rewrite ?Hclr. }
  clearbody st2.
  assert (timers (initializeEffect p st2) = []) as Ht3.
  { unfold initializeEffect. destruct (element p); [| done].
    by destruct (isOpen p && nonEmptyData p && negb (initializedRef st2)). }
  set (st3 := initializeEffect p st2) in *. clearbody st3.
  assert (timers (liveEffect now p st3) = [] ∨
          ∃ h el, element p = Some el
                  ∧ timers (liveEffect now p st3)
                    = [ {| handle := h; deadline := now + 300;
                           t_labels := labels p; t_series := p_series p;
                           t_element := el |} ]
                  ∧ updateTimeoutRef (liveEffect now p st3) = Some h
                  ∧ liveCleanup (liveEffect now p st3) = true) as Hlive.
  { unfold liveEffect.
    destruct (element p) as [el|]; [| by left].
    destruct (negb (isOpen p) || negb (nonEmptyData p)); [by left |].
    destruct (String.eqb (chartType el) "pie"); [by left |].
    destruct (negb (initializedRef st3)); [by left |].
    destruct (isInitialLoadRef st3 && sameAsLastSaved _ st3); [by left |].
    set (st4 := if isInitialLoadRef st3
                then set_isInitialLoad false st3 else st3).
    assert (timers st4 = []) as Ht4
      by (unfold st4; by destruct (isInitialLoadRef st3)).
    clearbody st4.
    destruct (sameAsLastSaved _ st4); [by left |].
    right. unfold clearPending, clearTimeout.
    destruct (updateTimeoutRef st4); simpl;
      rewrite ?Ht4, ?filter_nil; do 2 eexists; by repeat split. }
  destruct (match rendered st with Some q => negb (sameTarget q p) | None => _ end);
    simpl; exact Hlive.
Qed.

Lemma pendingIsLatest_onePending st : pendingIsLatest st → onePending st.
Proof.
  intros [Ht | (tm & p & Ht & _ & _ & _ & _ & Href & Hc)]; [by left |].
  right. eauto.
Qed.

Lemma step_pendingIsLatest h st ev :
  pendingIsLatest st → pendingIsLatest (step h st ev).
Proof.
  intros Hlatest.
  assert (pendingIsLatest (tick h (match ev with
                                   | Render t _ | Tick t | Save t _ => t
                                   end) st)) as Htick.
  { set (t := match ev with Render t _ | Tick t | Save t _ => t end).
    destruct Hlatest as [Ht | (tm & p & Ht & Hr & Hrest)].
    - rewrite tick_idle by done. by left.
    - destruct (decide (deadline tm ≤ t)) as [Hle|Hgt].
      + rewrite (tick_due h t st tm) by done. left.
        by destruct (timerCallback_frame h t tm
                       (set_timers [] (nextHandle st) st)) as (-> & _).
      + rewrite (tick_early h t st tm) by (done || lia). right. eauto. }
  destruct ev as [t p | t | t u]; simpl.
  - destruct (render_pending t p (tick h t st)
                (pendingIsLatest_onePending _ Htick))
      as [Ht | (hd & el & Hel & Ht & Href & Hc)]; [by left |].
    right. destruct (render_host t p (tick h t st)) as (_ & Hr & _).
    eexists _, p. rewrite Ht, Hr, Hel. by repeat split.
  - exact Htick.
  - destruct (handleSaveData_frame h t u false (tick h t st))
      as (Htm & Href & Hc & Hr & _).
    unfold pendingIsLatest in *. rewrite Htm, Href, Hc, Hr. exact Htick.
Qed.

(** X12: in every state the session reaches, at most one debounce timer is
    pending; it is the one [updateTimeoutRef] points to and it captured
    the element, labels and series of the latest render, so a live commit
    never carries data older than what the modal shows. *)
Theorem pending_commit_is_latest_render h evs :
  pendingIsLatest (run h evs initial)
  ∧ length (timers (run h evs initial)) ≤ 1.
Proof.
  assert (pendingIsLatest (run h evs initial)) as Hl.
  { assert (∀ st, pendingIsLatest st → pendingIsLatest (run h evs st)) as Hrun.
    { induction evs as [|ev evs IH]; intros st Hst; [done |].
      apply IH. by apply step_pendingIsLatest. }
    apply Hrun. by left. }
  split; [exact Hl |].
  destruct Hl as [-> | (tm & p & -> & _)]; simpl; lia.
Qed.

(** X13: a render with the modal closed cancels the pending timer without
    running it: nothing is pending afterwards, no host call is made then or
    at any later timer run, and if the modal was open the fingerprint and
    the initialised flag are dropped. *)
Theorem closing_discards_pending_commit h evs now p :
  isOpen p = false →
  timers (render now p (run h evs initial)) = []
  ∧ calls (render now p (run h evs initial)) = calls (run h evs initial)
  ∧ (∀ T, calls (tick h T (render now p (run h evs initial)))
          = calls (run h evs initial))
  ∧ (∀ q, rendered (run h evs initial) = Some q → isOpen q = true →
          lastSavedDataRef (render now p (run h evs initial)) = None
          ∧ initializedRef (render now p (run h evs initial)) = false
          ∧ updateTimeoutRef (render now p (run h evs initial)) = None).
Proof.
  intros Hclosed. set (st := run h evs initial).
  pose proof (run_onePending h evs initial initial_onePending) as Hone.
  fold st in Hone.
  destruct (render_host now p st) as (Hcalls & _ & _).
  assert (∀ s, initializeEffect p s = s) as Hinit.
  { intros s. unfold initializeEffect. rewrite Hclosed. by destruct (element p). }
  assert (∀ s, liveEffect now p s = set_react false (rendered s) s) as Hlive.
  { intros s. unfold liveEffect. rewrite Hclosed. by destruct (element p). }
  assert (timers (render now p st) = []) as Ht.
  { pose proof (clearPending_onePending st Hone) as Hclr.
    unfold render, useLiveUpdates. rewrite Hinit, Hlive.
    set (st1 := if liveCleanup st then clearPending st else st) in *.
    clearbody st1.
    set (st2 := if match rendered st with
                   | Some q => negb (eqb (isOpen q) (isOpen p))
                   | None => true
                   end then openCloseEffect p st1 else st1).
    assert (timers st2 = []) as Ht2.
    { unfold st2.
      destruct (match rendered st with Some _ => _ | None => _ end); [| done].
      unfold openCloseEffect, clearTimeout. rewrite Hclosed.
      destruct (updateTimeoutRef st1); simpl; by rewrite ?Hclr. }
    clearbody st2.
    destruct (match rendered st with Some q => negb (sameTarget q p) | None => _ end);
      simpl; exact Ht2. }
  split; [exact Ht |]. split; [exact Hcalls |]. split.
  - intros T. by rewrite tick_idle.
  - intros q Hq Hopen. unfold render, useLiveUpdates.
    rewrite Hq, Hopen, Hclosed. cbn [eqb negb].
    set (st1 := if liveCleanup st then clearPending st else st).
    clearbody st1.
    assert (lastSavedDataRef (openCloseEffect p st1) = None
            ∧ initializedRef (openCloseEffect p st1) = false
            ∧ updateTimeoutRef (openCloseEffect p st1) = None)
      as (Hl & Hi & Href).
    { unfold openCloseEffect. rewrite Hclosed.
      destruct (updateTimeoutRef st1) eqn:Href1; simpl; by rewrite ?Href1. }
    set (st2 := openCloseEffect p st1) in *. clearbody st2.
    rewrite Hinit, Hlive.
    destruct (negb (sameTarget q p)); by simpl.
Qed.

(** X14: the render that opens the modal arms no timer and makes no host
    call; when it shows a chart with data it records the fingerprint of
    exactly that data, so data present at opening is never treated as an
    edit. *)
Theorem opening_records_fingerprint_without_commit h evs now p :
  isOpen p = true →
  (∀ q, rendered (run h evs initial) = Some q → isOpen q = false) →
  timers (render now p (run h evs initial)) = []
  ∧ calls (render now p (run h evs initial)) = calls (run h evs initial)
  ∧ (∀ el, element p = Some el → nonEmptyData p = true →
       lastSavedDataRef (render now p (run h evs initial))
       = Some (fingerprint (labels p) (p_series p) el)
       ∧ initializedRef (render now p (run h evs initial)) = true).
Proof.
  intros Hopen Hprev. set (st := run h evs initial) in *.
  pose proof (run_onePending h evs initial initial_onePending) as Hone.
  fold st in Hone.
  destruct (render_host now p st) as (Hcalls & _ & _).
  pose proof (clearPending_onePending st Hone) as Hclr.
  assert (match rendered st with
          | Some q => negb (eqb (isOpen q) (isOpen p))
          | None => true
          end = true) as Hchanged.
  { destruct (rendered st) as [q|]; [| done].
    by rewrite (Hprev q eq_refl), Hopen. }
  assert (∀ st1, timers st1 = [] →
            let st3 := initializeEffect p (openCloseEffect p st1) in
            timers (liveEffect now p st3) = []
            ∧ ∀ el, element p = Some el → nonEmptyData p = true →
                lastSavedDataRef (liveEffect now p st3)
                = Some (fingerprint (labels p) (p_series p) el)
                ∧ initializedRef (liveEffect now p st3) = true) as Hstages.
  { intros st1 Ht1. unfold openCloseEffect. rewrite Hopen.
    unfold initializeEffect, liveEffect. simpl.
    destruct (element p) as [el|]; [| by split].
    rewrite Hopen. simpl.
    destruct (nonEmptyData p); simpl; [| by split].
    destruct (String.eqb (chartType el) "pie").
    - split; [done |]. by intros el' [= <-] _.
    - unfold sameAsLastSaved. simpl. rewrite String.eqb_refl. simpl.
      split; [done |]. by intros el' [= <-] _. }
  destruct (Hstages _ Hclr) as [Ht Hfp].
  split; [| split; [exact Hcalls |]].
  - unfold render, useLiveUpdates. rewrite Hchanged.
    destruct (match rendered st with Some q => negb (sameTarget q p) | None => _ end);
      simpl; exact Ht.
  - intros el Hel Hdata. destruct (Hfp el Hel Hdata) as [Hl Hi].
    unfold render, useLiveUpdates. rewrite Hchanged.
    destruct (match rendered st with Some q => negb (sameTarget q p) | None => _ end);
      simpl; by split.
Qed.

Lemma render_noLiveTarget now p st :
  timers st = [] →
  noLiveTarget (Render now p) →
  timers (render now p st) = [].
Proof.
  intros Ht Hpie.
  assert (onePending st) as Hone by (by left).
  destruct (render_pending now p st Hone)
    as [Hnil | (hd & el & Hel & Htm & _)]; [done |].
  exfalso. simpl in Hpie. rewrite Hel in Hpie.
  pose proof (clearPending_onePending st Hone) as Hclr.
  revert Htm. unfold render, useLiveUpdates.
  set (st1 := if liveCleanup st then clearPending st else st) in *.
  clearbody st1.
  set (st2 := if match rendered st with
                 | Some q => negb (eqb (isOpen q) (isOpen p))
                 | None => true
                 end then openCloseEffect p st1 else st1).
  assert (timers st2 = []) as Ht2.
  { unfold st2.
    destruct (match rendered st with Some _ => _ | None => _ end); [| done].
    unfold openCloseEffect, clearTimeout.
    destruct (isOpen p); [done |].
    destruct (updateTimeoutRef st1); simpl; by rewrite ?Hclr. }
  clearbody st2.
  assert (timers (initializeEffect p st2) = []) as Ht3.
  { unfold initializeEffect. rewrite Hel.
    by destruct (isOpen p && nonEmptyData p && negb (initializedRef st2)). }
  set (st3 := initializeEffect p st2) in *. clearbody st3.
  assert (timers (liveEffect now p st3) = []) as Ht4.
  { unfold liveEffect. rewrite Hel, Hpie.
    by destruct (negb (isOpen p) || negb (nonEmptyData p)). }
  destruct (match rendered st with Some q => negb (sameTarget q p) | None => _ end);
    simpl; by rewrite Ht4.
Qed.

Lemma explicit_save_is_not_live h now u st :
  liveCommits (handleSaveData h now u false st).2 = liveCommits st.
Proof.
  unfold liveCommits.
  destruct (rendered st ≫= element) as [sel|] eqn:Hsel.
  - rewrite (handleSaveData_explicit h now u st sel Hsel), filter_app.
    rewrite filter_cons, filter_nil.
    destruct (hasLiveSnapshotRef st); simpl; by rewrite app_nil_r.
  - unfold handleSaveData. by rewrite Hsel.
Qed.

(** X15: pie charts never produce a live commit: as long as every render
    shows a pie chart (or no element), no timer is ever armed and the
    commit callback is never called with [isLive], whatever the edits,
    timer runs and explicit saves. *)
Theorem pie_charts_never_commit_live h evs :
  Forall noLiveTarget evs →
  timers (run h evs initial) = [] ∧ liveCommits (run h evs initial) = [].
Proof.
  assert (∀ st, timers st = [] → liveCommits st = [] →
                Forall noLiveTarget evs →
                timers (run h evs st) = [] ∧ liveCommits (run h evs st) = [])
    as Hrun.
  { induction evs as [|ev evs IH]; intros st Ht Hl Hall; [done |].
    apply Forall_cons in Hall as [Hev Hall].
    apply IH; [| | exact Hall]; destruct ev as [t p | t | t u]; simpl;
      rewrite tick_idle by done; try done.
    - by apply render_noLiveTarget.
    - by destruct (handleSaveData_frame h t u false st) as (-> & _).
    - unfold liveCommits in *.
      by destruct (render_host t p st) as (-> & _).
    - by rewrite explicit_save_is_not_live. }
  intros Hall. by apply Hrun.
Qed.



(** X17: the snapshot flag survives a render of the same element with the
    modal in the same state and is cleared by any other render; after a
    render that switches to another element, an explicit save sends an
    unmarked update, leaving the snapshot to [updateSlideElement], even
    if live commits were made on the previous element. *)
Theorem switching_target_clears_snapshot_flag h now p st q t u :
  rendered st = Some q →
  hasLiveSnapshotRef (render now p st)
  = (if sameTarget q p then hasLiveSnapshotRef st else false)
  ∧ (∀ el, element p = Some el → sameTarget q p = false →
       calls (handleSaveData h t u false (render now p st)).2
       = calls st ++ [(t, UpdateSlideElement (id el) u None)]).
Proof.
  intros Hq. destruct (render_host now p st) as (Hc & Hr & Hf).
  rewrite Hq in Hf. split; [exact Hf |].
  intros el Hel Hsame.
  rewrite (handleSaveData_explicit h t u (render now p st) el)
    by (by rewrite Hr).
  by rewrite Hf, Hsame, Hc.
Qed.

Lemma foldl_timerCallback_timers h now due : ∀ st,
  timers (foldl (λ st tm, timerCallback h now tm st) st due) = timers st.
Proof.
  induction due as [|tm due IH]; intros st; [done |].
  simpl. rewrite IH.
  by destruct (timerCallback_frame h now tm st) as (-> & _).
Qed.

Lemma not_due_later (l : list timer) T T' :
  T' ≤ T →
  filter (λ tm, deadline tm ≤ T') (filter (λ tm, ¬ deadline tm ≤ T) l) = []
  ∧ filter (λ tm, ¬ deadline tm ≤ T') (filter (λ tm, ¬ deadline tm ≤ T) l)
    = filter (λ tm, ¬ deadline tm ≤ T) l.
Proof.
  intros Hle. induction l as [|tm l [IH1 IH2]]; [done |].
  rewrite filter_cons. destruct (decide (¬ deadline tm ≤ T)); [| done].
  rewrite !filter_cons, IH1, IH2.
  destruct (decide (deadline tm ≤ T')); [lia |].
  by destruct (decide (¬ deadline tm ≤ T')).
Qed.

(** X18: a timer runs at most once: after the callbacks due at time [T]
    have run, running the timers again at [T] or any earlier time changes
    nothing. *)
Theorem due_timers_run_once h T T' st :
  T' ≤ T → tick h T' (tick h T st) = tick h T st.
Proof.
  intros Hle. set (st1 := tick h T st).
  assert (timers st1 = filter (λ tm, ¬ deadline tm ≤ T) (timers st)) as Ht.
  { unfold st1, tick. by rewrite foldl_timerCallback_timers. }
  clearbody st1. unfold tick.
  destruct (not_due_later (timers st) T T' Hle) as [Hdue Hrest].
  rewrite Ht, Hdue, Hrest, <- Ht. by destruct st1.
Qed.

End WithData.

Lemma closing_discards_pending_commit_witness :
  let evs := [Render 0 (opened 1); Render 10 (opened 5)] in
  timers (render 100 (closed 5) (run quietHost evs initial)) = []
  ∧ calls (render 100 (closed 5) (run quietHost evs initial))
    = calls (run quietHost evs initial)
  ∧ (∀ T, calls (tick quietHost T
                   (render 100 (closed 5) (run quietHost evs initial)))
          = calls (run quietHost evs initial))
  ∧ (∀ q, rendered (run quietHost evs initial) = Some q → isOpen q = true →
          lastSavedDataRef (render 100 (closed 5) (run quietHost evs initial))
          = None
          ∧ initializedRef (render 100 (closed 5) (run quietHost evs initial))
            = false
          ∧ updateTimeoutRef
              (render 100 (closed 5) (run quietHost evs initial)) = None).
Proof.
  intros evs.
  apply (closing_discards_pending_commit quietHost evs 100 (closed 5)).
  reflexivity.
Defined.

Lemma opening_records_fingerprint_without_commit_witness :
  let evs := [Render 0 (opened 1); Render 10 (opened 5); Render 50 (closed 5)] in
  timers (render 100 (opened 7) (run quietHost evs initial)) = []
  ∧ calls (render 100 (opened 7) (run quietHost evs initial))
    = calls (run quietHost evs initial)
  ∧ (∀ el, element (opened 7) = Some el → nonEmptyData (opened 7) = true →
       lastSavedDataRef (render 100 (opened 7) (run quietHost evs initial))
       = Some (fingerprint (labels (opened 7)) (p_series (opened 7)) el)
       ∧ initializedRef (render 100 (opened 7) (run quietHost evs initial))
         = true).
Proof.
  intros evs.
  apply (opening_records_fingerprint_without_commit quietHost evs 100
           (opened 7)).
  - reflexivity.
  - intros q [= <-]. reflexivity.
Defined.

Lemma pie_charts_never_commit_live_witness :
  let evs := [ Render 0 (pieOpened 1); Render 10 (pieOpened 5); Tick 400;
               Render 500 (pieOpened 7); Save 600 (["Q1"; "Q2"], sales 7);
               Tick 1000 ] in
  timers (run quietHost evs initial) = []
  ∧ liveCommits (run quietHost evs initial) = [].
Proof.
  intros evs. apply (pie_charts_never_commit_live quietHost evs).
  repeat constructor.
Defined.


Lemma switching_target_clears_snapshot_flag_witness :
  let st := run quietHost [Render 0 (opened 1); Render 10 (opened 5);
                           Tick 310] initial in
  hasLiveSnapshotRef (render 400 (pieOpened 5) st)
  = (if sameTarget (opened 5) (pieOpened 5)
     then hasLiveSnapshotRef st else false)
  ∧ (∀ el, element (pieOpened 5) = Some el →
       sameTarget (opened 5) (pieOpened 5) = false →
       calls (handleSaveData quietHost 500 (["Q1"; "Q2"], sales 5) false
                (render 400 (pieOpened 5) st)).2
       = calls st
         ++ [(500, UpdateSlideElement (id el) (["Q1"; "Q2"], sales 5) None)]).
Proof.
  intros st.
  apply (switching_target_clears_snapshot_flag quietHost 400 (pieOpened 5) st
           (opened 5) 500 (["Q1"; "Q2"], sales 5)).
  reflexivity.
Defined.

Lemma due_timers_run_once_witness :
  let st := run quietHost [Render 0 (opened 1); Render 10 (opened 5)]
              initial in
  tick quietHost 320 (tick quietHost 400 st) = tick quietHost 400 st.
Proof.
  intros st. apply (due_timers_run_once quietHost 400 320 st). lia.
Defined.

End LiveExtra.

(** ** Snapshots over a burst of renders, timer runs and a save *)
Module BurstFacts.
Import LiveSession LiveAux LiveFacts LiveExtra.

Section WithData.
Context `{ChartData}.

Lemma sameTarget_refl p : sameTarget p p = true.
Proof.
  unfold sameTarget. rewrite bool_decide_eq_true_2 by done.
  by destruct (isOpen p).
Qed.

Lemma sameTarget_trans p q r :
  sameTarget p q = true → sameTarget p r = true → sameTarget q r = true.
Proof.
  unfold sameTarget. rewrite !andb_true_iff, !bool_decide_eq_true.
  intros [Hq Hoq] [Hr Hor]. split; [congruence |].
  by destruct (isOpen p), (isOpen q), (isOpen r).
Qed.

Lemma sameTarget_selected p q sel :
  sameTarget p q = true → element p = Some sel →
  ∃ el, element q = Some el ∧ id el = id sel.
Proof.
  unfold sameTarget. rewrite andb_true_iff, bool_decide_eq_true.
  intros [Hid _] Hsel. rewrite Hsel in Hid.
  destruct (element q) as [el|]; [| done].
  exists el. split; [done |]. by injection Hid.
Qed.

Lemma burstCalls_app a b : burstCalls (a ++ b) = burstCalls a ++ burstCalls b.
Proof. unfold burstCalls. apply flat_map_app. Qed.

Lemma count_burstCalls commits :
  length (filter (λ c, isSnapshotRequest c = true) (burstCalls commits))
  = length commits
  ∧ length (filter (λ c, isPushSnapshot c = true) (burstCalls commits))
    = length commits
  ∧ length (filter (λ c, isLiveCommit c = true) (burstCalls commits))
    = length commits.
Proof.
  induction commits as [|c commits (IH1 & IH2 & IH3)]; [done |].
  unfold burstCalls in *. cbn [flat_map liveCalls app].
  rewrite !filter_cons. simpl. by rewrite IH1, IH2, IH3.
Qed.

(** One timer callback: the snapshot, then the marked update, and the
    flag is set, whatever the host throws. *)
Lemma timerCallback_host h now tm st sel :
  pushSnapshot h = true →
  rendered st ≫= element = Some sel →
  calls (timerCallback h now tm st)
  = calls st
    ++ liveCalls sel (now, padChartData (t_labels tm) (t_series tm)
                             (chartType (t_element tm)) (t_element tm))
  ∧ rendered (timerCallback h now tm st) = rendered st
  ∧ hasLiveSnapshotRef (timerCallback h now tm st) = true.
Proof.
  intros Hpush Hsel. unfold timerCallback.
  match goal with
  | |- context [handleSaveData h now ?u true ?s] =>
      destruct (handleSaveData_live h now u s sel Hsel) as [Hc Hf];
      destruct (handleSaveData_frame h now u true s) as (_ & _ & _ & Hr & _);
      destruct (handleSaveData h now u true s) as [threw st1]
  end.
  simpl in Hc, Hf, Hr. rewrite Hpush in Hc.
  destruct threw; simpl; by repeat split.
Qed.

Lemma foldl_timerCallback_host h now sel :
  pushSnapshot h = true →
  ∀ due st,
    rendered st ≫= element = Some sel →
    ∃ ds,
      calls (foldl (λ st tm, timerCallback h now tm st) st due)
      = calls st ++ burstCalls (pair sel <$> ds)
      ∧ length ds = length due
      ∧ rendered (foldl (λ st tm, timerCallback h now tm st) st due)
        = rendered st
      ∧ hasLiveSnapshotRef (foldl (λ st tm, timerCallback h now tm st) st due)
        = (if ds is [] then hasLiveSnapshotRef st else true).
Proof.
  intros Hpush. induction due as [|tm due IH]; intros st Hsel.
  - exists []. simpl. by rewrite app_nil_r.
  - destruct (timerCallback_host h now tm st sel Hpush Hsel)
      as (Hc & Hr & Hf).
    destruct (IH (timerCallback h now tm st)) as (ds & Hc' & Hl & Hr' & Hf');
      [by rewrite Hr |].
    eexists (_ :: ds). cbn [foldl]. rewrite Hc', Hc, Hr', Hr, Hf', Hf.
    split; [by rewrite <- app_assoc |]. split; [simpl; by rewrite Hl |].
    split; [done |]. by destruct ds.
Qed.

(** A timer run inside a burst. *)
Lemma tick_host h now st sel :
  pushSnapshot h = true →
  rendered st ≫= element = Some sel →
  ∃ ds,
    calls (tick h now st) = calls st ++ burstCalls (pair sel <$> ds)
    ∧ rendered (tick h now st) = rendered st
    ∧ hasLiveSnapshotRef (tick h now st)
      = (if ds is [] then hasLiveSnapshotRef st else true).
Proof.
  intros Hpush Hsel. unfold tick.
  destruct (foldl_timerCallback_host h now sel Hpush
              (filter (λ tm, deadline tm ≤ now) (timers st))
              (set_timers (filter (λ tm, ¬ deadline tm ≤ now) (timers st))
                 (nextHandle st) st) Hsel)
    as (ds & Hc & _ & Hr & Hf).
  exists ds. by rewrite Hc, Hr, Hf.
Qed.

Lemma Forall_same_id (sel el : chartElement) (ds : list (nat * dataset)) :
  id el = id sel →
  Forall (λ c : chartElement * (nat * dataset), id c.1 = id sel)
    (pair el <$> ds).
Proof. intros Hid. induction ds; by constructor. Qed.

Lemma step_burst h p0 sel st q ev :
  pushSnapshot h = true →
  element p0 = Some sel →
  rendered st = Some q → sameTarget p0 q = true →
  sameBurst p0 ev →
  ∃ commits q',
    calls (step h st ev) = calls st ++ burstCalls commits
    ∧ Forall (λ c, id c.1 = id sel) commits
    ∧ rendered (step h st ev) = Some q' ∧ sameTarget p0 q' = true
    ∧ hasLiveSnapshotRef (step h st ev)
      = (if commits is [] then hasLiveSnapshotRef st else true).
Proof.
  intros Hpush Hsel Hq Hsame Hev.
  destruct (sameTarget_selected p0 q sel Hsame Hsel) as (el & Hel & Hid).
  destruct ev as [t p | t | t u]; [| | done].
  - destruct (tick_host h t st el Hpush) as (ds & Hc & Hr & Hf);
      [by rewrite Hq |].
    destruct (render_host t p (tick h t st)) as (Hc' & Hr' & Hf').
    cbn [sameBurst] in Hev.
    rewrite Hr, Hq, (sameTarget_trans p0 q p Hsame Hev) in Hf'.
    exists (pair el <$> ds), p. cbn [step]. rewrite Hc', Hr', Hf', Hc, Hf.
    split; [done |]. split; [by apply Forall_same_id |].
    split; [done |]. split; [done |]. by destruct ds.
  - destruct (tick_host h t st el Hpush) as (ds & Hc & Hr & Hf);
      [by rewrite Hq |].
    exists (pair el <$> ds), q. cbn [step]. rewrite Hc, Hr, Hf.
    split; [done |]. split; [by apply Forall_same_id |].
    split; [done |]. split; [done |]. by destruct ds.
Qed.

Lemma run_burst h p0 sel :
  pushSnapshot h = true →
  element p0 = Some sel →
  ∀ evs st q,
    rendered st = Some q → sameTarget p0 q = true →
    Forall (sameBurst p0) evs →
    ∃ commits q',
      calls (run h evs st) = calls st ++ burstCalls commits
      ∧ Forall (λ c, id c.1 = id sel) commits
      ∧ rendered (run h evs st) = Some q' ∧ sameTarget p0 q' = true
      ∧ hasLiveSnapshotRef (run h evs st)
        = (if commits is [] then hasLiveSnapshotRef st else true).
Proof.
  intros Hpush Hsel.
  induction evs as [|ev evs IH]; intros st q Hq Hsame Hevs.
  - exists [], q. simpl. by rewrite app_nil_r.
  - apply Forall_cons in Hevs as [Hev Hevs].
    destruct (step_burst h p0 sel st q ev Hpush Hsel Hq Hsame Hev)
      as (c1 & q1 & Hc1 & Hid1 & Hr1 & Hs1 & Hf1).
    destruct (IH (step h st ev) q1 Hr1 Hs1 Hevs)
      as (c2 & q2 & Hc2 & Hid2 & Hr2 & Hs2 & Hf2).
    exists (c1 ++ c2), q2. cbn [run foldl]. unfold run in *.
    rewrite Hc2, Hc1, Hr2, Hf2, Hf1, burstCalls_app.
    split; [by rewrite app_assoc |]. split; [by apply Forall_app |].
    split; [done |]. split; [done |]. by destruct c1, c2.
Qed.

(** C1 (amended): take a burst on one target: renders that keep the element
    id and the modal state, and timer runs, starting with the snapshot
    flag clear and ended by an explicit save. With [pushSnapshot]
    supplied, every live commit of the burst makes exactly one
    [pushSnapshot] call, immediately before its own document update, so a
    burst of n live commits makes n calls. The explicit save makes no
    [pushSnapshot] call; its update is marked, and so requests no further
    snapshot, exactly when the burst made a live commit, and is unmarked,
    requesting the one snapshot of the burst, when it made none. *)
Theorem C1_snapshot_before_each_live_commit h st p0 sel evs t u :
  pushSnapshot h = true →
  rendered st = Some p0 → element p0 = Some sel →
  hasLiveSnapshotRef st = false →
  Forall (sameBurst p0) evs →
  ∃ commits,
    calls (run h (evs ++ [Save t u]) st)
    = calls st ++ burstCalls commits
      ++ [ (t, UpdateSlideElement (id sel) u
                 (if commits is [] then None else Some "chart-save")) ]
    ∧ Forall (λ c, id c.1 = id sel) commits
    ∧ length (liveCommits (run h (evs ++ [Save t u]) st))
      = length (liveCommits st) + length commits
    ∧ pushSnapshotCalls (run h (evs ++ [Save t u]) st)
      = pushSnapshotCalls st + length commits
    ∧ snapshotRequests (run h (evs ++ [Save t u]) st)
      = snapshotRequests st + Nat.max 1 (length commits).
Proof.
  intros Hpush Hp0 Hsel Hflag Hevs.
  destruct (run_burst h p0 sel Hpush Hsel evs st p0 Hp0 (sameTarget_refl p0)
              Hevs) as (c1 & q & Hc1 & Hid1 & Hr1 & Hs1 & Hf1).
  destruct (sameTarget_selected p0 q sel Hs1 Hsel) as (el & Hel & Hid).
  destruct (tick_host h t (run h evs st) el Hpush) as (ds & Hc2 & Hr2 & Hf2);
    [by rewrite Hr1 |].
  pose proof (handleSaveData_explicit h t u (tick h t (run h evs st)) el)
    as Hsave.
  rewrite Hr2, Hr1 in Hsave. specialize (Hsave Hel).
  rewrite Hf2, Hf1, Hflag, Hc2, Hc1, Hid in Hsave.
  exists (c1 ++ (pair el <$> ds)).
  assert (calls (run h (evs ++ [Save t u]) st)
          = calls st ++ burstCalls (c1 ++ (pair el <$> ds))
            ++ [ (t, UpdateSlideElement (id sel) u
                       (if c1 ++ (pair el <$> ds) is []
                        then None else Some "chart-save")) ]) as Hcalls.
  { unfold run. rewrite foldl_app. cbn [foldl step]. fold (run h evs st).
    rewrite Hsave, burstCalls_app, <- !app_assoc.
    by destruct c1, ds. }
  split; [exact Hcalls |].
  split; [apply Forall_app; split; [done | by apply Forall_same_id] |].
  set (commits := c1 ++ (pair el <$> ds)) in *. clearbody commits.
  destruct (count_burstCalls commits) as (Hreq & Hps & Hlive).
  unfold liveCommits, pushSnapshotCalls, snapshotRequests.
  rewrite Hcalls, !filter_app, !length_app, Hreq, Hps, Hlive.
  split; [| split]; destruct commits; rewrite filter_cons, filter_nil;
    simpl; lia.
Qed.

End WithData.

Lemma C1_snapshot_before_each_live_commit_witness :
  let st := run quietHost [Render 0 (opened 1)] initial in
  let evs := [ Render 10 (opened 5); Tick 310; Render 400 (opened 7);
               Tick 700 ] in
  let t := 800 in
  let u := (["Q1"; "Q2"], sales 7) in
  ∃ commits,
    calls (run quietHost (evs ++ [Save t u]) st)
    = calls st ++ burstCalls commits
      ++ [ (t, UpdateSlideElement (id barChart) u
                 (if commits is [] then None else Some "chart-save")) ]
    ∧ Forall (λ c, id c.1 = id barChart) commits
    ∧ length (liveCommits (run quietHost (evs ++ [Save t u]) st))
      = length (liveCommits st) + length commits
    ∧ pushSnapshotCalls (run quietHost (evs ++ [Save t u]) st)
      = pushSnapshotCalls st + length commits
    ∧ snapshotRequests (run quietHost (evs ++ [Save t u]) st)
      = snapshotRequests st + Nat.max 1 (length commits).
Proof.
  intros st evs t u.
  apply (C1_snapshot_before_each_live_commit quietHost st (opened 1) barChart
           evs t u).
  - reflexivity.
  - reflexivity.
  - reflexivity.
  - reflexivity.
  - repeat constructor.
Defined.

(** The burst of the witness: two live commits, each with its snapshot,
    and a save marked as already snapshotted. *)
Example burst_of_two_commits_then_save :
  map snd
    (calls
       (run quietHost
          [ Render 0 (opened 1); Render 10 (opened 5); Tick 310;
            Render 400 (opened 7); Tick 700;
            Save 800 (["Q1"; "Q2"], sales 7) ] initial))
  = [ PushSnapshot barChart;
      UpdateSlideElement "chart-1" (["Q1"; "Q2"], sales 5) (Some "chart-live");
      PushSnapshot barChart;
      UpdateSlideElement "chart-1" (["Q1"; "Q2"], sales 7) (Some "chart-live");
      UpdateSlideElement "chart-1" (["Q1"; "Q2"], sales 7)
        (Some "chart-save") ].
Proof. by vm_compute. Qed.

End BurstFacts.

Module FieldExtra.
Import NumericFields FieldAux FieldFacts.

Section WithBuiltins.
Context `{Builtins}.

(** X19: writing [values[index]] on the copy changes that entry only: the
    array keeps its length when the index is inside and grows to
    [index + 1] otherwise, entries at other indices are kept, and the
    entries between the old end and the index are holes. *)
Theorem array_set_touches_one_entry values index v :
  length (array_set values index v) = Nat.max (length values) (S index)
  ∧ (∀ j, j ≠ index → j < length values →
       array_set values index v !! j = values !! j)
  ∧ (∀ j, length values ≤ j → j < index →
       array_set values index v !! j = Some Undefined).
Proof.
  unfold array_set.
  destruct (decide (index < length values)) as [Hlt|Hge].
  - split; [rewrite length_insert; lia |]. split.
    + intros j Hj _. by apply list_lookup_insert_ne.
    + intros j Hj1 Hj2. lia.
  - split; [rewrite !length_app, length_replicate; simpl; lia |]. split.
    + intros j _ Hj. by apply lookup_app_l.
    + intros j Hj1 Hj2. rewrite lookup_app_r by done.
      rewrite lookup_app_l by (rewrite length_replicate; lia).
      apply lookup_replicate_2. lia.
Qed.

Lemma array_set_nonNegative values index v :
  Forall nonNegative values → nonNegative v →
  Forall nonNegative (array_set values index v).
Proof.
  intros Hvs Hv. unfold array_set.
  destruct (decide (index < length values)).
  - by apply Forall_insert.
  - apply Forall_app. split; [done |]. apply Forall_app. split.
    + by apply Forall_replicate.
    + by repeat constructor.
Qed.

(** X20: the pie editor never commits a negative number: if the values of
    the element hold no negative number, neither does any update sent by a
    keystroke or by a blur, whatever string was typed. *)
Theorem pie_editor_commits_no_negative el index value st :
  Forall nonNegative (default [] (Pie.values el)) →
  sentNonNegative st →
  sentNonNegative (Pie.handleValueChange el index value st)
  ∧ sentNonNegative (Pie.handleValueBlur el index st).
Proof.
  intros Hvs Hst. unfold sentNonNegative in *. split.
  - unfold Pie.handleValueChange, Pie.commitValue.
    destruct (negb (String.eqb value "")); simpl; [| done].
    apply Forall_app. split; [done |]. repeat constructor. simpl.
    apply array_set_nonNegative; [done |]. apply clampValue_nonneg.
  - unfold Pie.handleValueBlur, Pie.commitValue.
    destruct (Pie.displayValues st !! index) as [[|a v]|]; simpl; try done;
      (apply Forall_app; split; [done |]); repeat constructor; simpl;
      apply array_set_nonNegative; try done; simpl; apply Qle_refl.
Qed.

(** X21: leaving a pie input removes it from the focus set and leaves the
    focus of the other inputs alone; if its display string is empty or
    missing, the blur commits 0 at that index and the display string
    stays empty (it is not replaced by "0"); if the display string is not
    empty, the blur commits nothing and changes no display string. *)
Theorem pie_blur_commits_zero_for_empty el index st :
  (index ∉ Pie.focusedInputs (Pie.handleValueBlur el index st))
  ∧ (∀ j, j ≠ index →
       (j ∈ Pie.focusedInputs (Pie.handleValueBlur el index st)
        ↔ j ∈ Pie.focusedInputs st))
  ∧ (Pie.displayValues st !! index = Some "" ∨
     Pie.displayValues st !! index = None →
     Pie.updateSlideElement (Pie.handleValueBlur el index st)
     = Pie.updateSlideElement st ++
       [ (Pie.id el,
          {| Pie.u_values :=
               array_set (default [] (Pie.values el)) index (Num 0);
             Pie.u_clearSeries := String.eqb (Pie.chartType el) "pie" |}) ]
     ∧ Pie.displayValues (Pie.handleValueBlur el index st) !! index
       = Some "")
  ∧ (∀ v, Pie.displayValues st !! index = Some v → v ≠ "" →
       Pie.updateSlideElement (Pie.handleValueBlur el index st)
       = Pie.updateSlideElement st
       ∧ Pie.displayValues (Pie.handleValueBlur el index st)
         = Pie.displayValues st).
Proof.
  unfold Pie.handleValueBlur, Pie.commitValue.
  split; [| split; [| split]].
  - destruct (Pie.displayValues st !! index) as [[|a v]|]; simpl;
      rewrite elem_of_difference, elem_of_singleton; tauto.
  - intros j Hj.
    destruct (Pie.displayValues st !! index) as [[|a v]|]; simpl;
      rewrite elem_of_difference, elem_of_singleton; tauto.
  - intros [-> | ->]; simpl; (split; [done | apply lookup_insert_eq]).
  - intros v -> Hv. destruct v; [done |]. by simpl.
Qed.

(** X22: leaving a table input removes it from the focus set; if its
    display string is empty or missing, the blur hands the string "0" to
    the parent's change handler for that series and row and the display
    string stays empty; otherwise the handler is not called. *)
Theorem row_blur_commits_zero_for_empty rowIndex seriesIndex st :
  (Row.key seriesIndex rowIndex
     ∉ Row.focusedInputs (Row.handleValueBlur rowIndex seriesIndex st))
  ∧ (∀ k, k ≠ Row.key seriesIndex rowIndex →
       (k ∈ Row.focusedInputs (Row.handleValueBlur rowIndex seriesIndex st)
        ↔ k ∈ Row.focusedInputs st))
  ∧ (Row.displayValues st !! Row.key seriesIndex rowIndex = Some "" ∨
     Row.displayValues st !! Row.key seriesIndex rowIndex = None →
     Row.onValueChange (Row.handleValueBlur rowIndex seriesIndex st)
     = Row.onValueChange st ++ [(seriesIndex, rowIndex, "0")]
     ∧ Row.displayValues (Row.handleValueBlur rowIndex seriesIndex st)
         !! Row.key seriesIndex rowIndex = Some "")
  ∧ (∀ v, Row.displayValues st !! Row.key seriesIndex rowIndex = Some v →
       v ≠ "" →
       Row.onValueChange (Row.handleValueBlur rowIndex seriesIndex st)
       = Row.onValueChange st
       ∧ Row.displayValues (Row.handleValueBlur rowIndex seriesIndex st)
         = Row.displayValues st).
Proof.
  unfold Row.handleValueBlur.
  split; [| split; [| split]].
  - destruct (Row.displayValues st !! Row.key seriesIndex rowIndex)
      as [[|a v]|]; simpl;
      rewrite elem_of_difference, elem_of_singleton; tauto.
  - intros k Hk.
    destruct (Row.displayValues st !! Row.key seriesIndex rowIndex)
      as [[|a v]|]; simpl;
      rewrite elem_of_difference, elem_of_singleton; tauto.
  - intros [-> | ->]; simpl; (split; [done | apply lookup_insert_eq]).
  - intros v -> Hv. destruct v; [done |]. by simpl.
Qed.

(** X23: a field that is focused and cleared keeps its empty display
    string through any later change of the committed data, mounted or
    not, changed or not, and clearing it commits nothing; this holds for
    the pie editor and for a table row. *)
Theorem cleared_focused_field_survives_updates
    (el el' : Pie.selected) (index : nat) (pst : Pie.state)
    (ss : list series) (rowIndex seriesIndex : nat) (rst : Row.state) :
  (let typed := Pie.handleValueChange el index ""
                  (Pie.handleValueFocus index pst) in
   Pie.displayValues (Pie.valuesEffect el' typed) !! index = Some ""
   ∧ Pie.updateSlideElement (Pie.valuesEffect el' typed)
     = Pie.updateSlideElement pst)
  ∧ (let typed := Row.handleValueChange rowIndex seriesIndex ""
                    (Row.handleValueFocus rowIndex seriesIndex rst) in
     Row.displayValues (Row.seriesEffect ss rowIndex typed)
       !! Row.key seriesIndex rowIndex = Some ""
     ∧ Row.onValueChange (Row.seriesEffect ss rowIndex typed)
       = Row.onValueChange rst).
Proof.
  split.
  - unfold Pie.valuesEffect, Pie.handleValueChange, Pie.handleValueFocus.
    simpl. destruct (negb (Pie.isMountedRef pst));
      [split; [apply lookup_insert_eq | done] |].
    destruct (negb (String.eqb _ _)); simpl;
      [| split; [apply lookup_insert_eq | done]].
    split; [| done]. rewrite lookup_union_r.
    + apply lookup_insert_eq.
    + rewrite pie_new_focused; [done |].
      by apply elem_of_union_l, elem_of_singleton.
  - unfold Row.seriesEffect, Row.handleValueChange, Row.handleValueFocus.
    simpl. destruct (negb (Row.isMountedRef rst));
      [split; [apply lookup_insert_eq | done] |].
    destruct (negb (String.eqb _ _)); simpl;
      [| split; [apply lookup_insert_eq | done]].
    split; [| done]. rewrite lookup_union_r.
    + apply lookup_insert_eq.
    + rewrite row_new_focused; [done |].
      by apply elem_of_union_l, elem_of_singleton.
Qed.

(** *** Mounting *)

Lemma pie_initial_below sparse : ∀ values index acc j,
  j < index → Pie.initialDisplay sparse index values acc !! j = acc !! j.
Proof.
  induction values as [|v values IH]; intros index acc j Hj; [done |].
  simpl. rewrite IH by lia.
  destruct (decide (index ∈ sparse)); [done |].
  apply lookup_insert_ne. lia.
Qed.

Lemma pie_initial_at sparse : ∀ values index acc i v,
  values !! i = Some v → index + i ∉ sparse →
  Pie.initialDisplay sparse index values acc !! (index + i)
  = Some (displayOf v).
Proof.
  induction values as [|v0 values IH]; intros index acc i v Hv Hnh; [done |].
  simpl. destruct i as [|i].
  - simpl in Hv. injection Hv as ->. rewrite Nat.add_0_r in *.
    rewrite pie_initial_below by lia.
    destruct (decide (index ∈ sparse)); [done |].
    apply lookup_insert_eq.
  - simpl in Hv. replace (index + S i) with (S index + i) in * by lia.
    by apply IH.
Qed.

Lemma pie_initial_hole sparse : ∀ values index acc j,
  j ∈ sparse → Pie.initialDisplay sparse index values acc !! j = acc !! j.
Proof.
  induction values as [|v values IH]; intros index acc j Hj; [done |].
  simpl. rewrite IH by done.
  destruct (decide (index ∈ sparse)); [done |].
  apply lookup_insert_ne. intros ->. done.
Qed.

Lemma pie_initial_beyond sparse : ∀ values index acc j,
  index + length values ≤ j →
  Pie.initialDisplay sparse index values acc !! j = acc !! j.
Proof.
  induction values as [|v values IH]; intros index acc j Hj; [done |].
  simpl in *. rewrite IH by lia.
  destruct (decide (index ∈ sparse)); [done |].
  apply lookup_insert_ne. lia.
Qed.




(** X24: mounting the pie editor writes one display entry for every index
    at which the values array holds an entry of its own: the number's
    string for a number other than 0, [''] for 0, [undefined] and [null].
    It writes no entry for a hole of a sparse array and none past the end.
    It remembers the values as previous values, and running the mount
    effect again changes nothing. *)
Theorem pie_mount_shows_committed_values el el' st :
  Pie.isMountedRef st = false →
  (∀ index q,
     default [] (Pie.values el) !! index = Some (Num q) →
     ¬ (q == 0)%Q → index ∉ Pie.holes el →
     Pie.displayValues (Pie.mountEffect el st) !! index
     = Some (numberToString q))
  ∧ (∀ index value,
       default [] (Pie.values el) !! index = Some value →
       blank value → index ∉ Pie.holes el →
       Pie.displayValues (Pie.mountEffect el st) !! index = Some "")
  ∧ (∀ index,
       index ∈ Pie.holes el ∨ length (default [] (Pie.values el)) ≤ index →
       Pie.displayValues (Pie.mountEffect el st) !! index = None)
  ∧ Pie.prevValuesRef (Pie.mountEffect el st)
    = Some (default [] (Pie.values el))
  ∧ Pie.mountEffect el' (Pie.mountEffect el st) = Pie.mountEffect el st.
Proof.
  intros Hm. unfold Pie.mountEffect. rewrite Hm. simpl.
  split; [| split; [| split; [| by split]]].
  - intros index q Hv Hq Hnh.
    rewrite (pie_initial_at _ _ 0 ∅ index (Num q)) by done.
    by rewrite displayOf_number.
  - intros index value Hv Hb Hnh.
    rewrite (pie_initial_at _ _ 0 ∅ index value) by done.
    by rewrite displayOf_blank.
  - intros index [Hh | Hlen].
    + by rewrite pie_initial_hole.
    + by rewrite pie_initial_beyond.
Qed.


(** X26: when the committed values change from outside, the update effect
    of the pie editor rewrites the display entry of every index that is
    not focused and at which the new array holds an entry of its own (the
    number's string for a number other than 0, [''] for 0, [undefined]
    and [null]); it keeps the entries of focused inputs, of holes and of
    indices past the end, keeps the focus set and remembers the new
    values. The update effect of a table row reads each series at the
    row's index, so it rewrites the entry of every series whose input is
    not focused, with [''] also where the series has no value at that
    row, and keeps the entries of focused inputs and the focus set. *)
Theorem update_effect_refreshes_entries
    (el : Pie.selected) (pst : Pie.state)
    (ss : list series) (rowIndex : nat) (rst : Row.state) :
  Pie.isMountedRef pst = true →
  String.eqb (stringifyValues (default [] (Pie.prevValuesRef pst)))
             (stringifyValues (default [] (Pie.values el))) = false →
  Row.isMountedRef rst = true →
  String.eqb (stringifySeries (Row.prevSeriesRef rst)) (stringifySeries ss)
    = false →
  ((∀ index q,
      default [] (Pie.values el) !! index = Some (Num q) → ¬ (q == 0)%Q →
      index ∉ Pie.focusedInputs pst → index ∉ Pie.holes el →
      Pie.displayValues (Pie.valuesEffect el pst) !! index
      = Some (numberToString q))
   ∧ (∀ index value,
        default [] (Pie.values el) !! index = Some value → blank value →
        index ∉ Pie.focusedInputs pst → index ∉ Pie.holes el →
        Pie.displayValues (Pie.valuesEffect el pst) !! index = Some "")
   ∧ (∀ index,
        index ∈ Pie.focusedInputs pst ∨ index ∈ Pie.holes el
        ∨ length (default [] (Pie.values el)) ≤ index →
        Pie.displayValues (Pie.valuesEffect el pst) !! index
        = Pie.displayValues pst !! index)
   ∧ Pie.focusedInputs (Pie.valuesEffect el pst) = Pie.focusedInputs pst
   ∧ Pie.prevValuesRef (Pie.valuesEffect el pst)
     = Some (default [] (Pie.values el)))
  ∧ ((∀ seriesIndex s q,
        ss !! seriesIndex = Some s →
        s_values s !! rowIndex = Some (Num q) → ¬ (q == 0)%Q →
        Row.key seriesIndex rowIndex ∉ Row.focusedInputs rst →
        Row.displayValues (Row.seriesEffect ss rowIndex rst)
          !! Row.key seriesIndex rowIndex
        = Some (numberToString q))
     ∧ (∀ seriesIndex s,
          ss !! seriesIndex = Some s →
          blank (at_index (s_values s) rowIndex) →
          Row.key seriesIndex rowIndex ∉ Row.focusedInputs rst →
          Row.displayValues (Row.seriesEffect ss rowIndex rst)
            !! Row.key seriesIndex rowIndex
          = Some "")
     ∧ (∀ k,
          k ∈ Row.focusedInputs rst →
          Row.displayValues (Row.seriesEffect ss rowIndex rst) !! k
          = Row.displayValues rst !! k)
     ∧ Row.focusedInputs (Row.seriesEffect ss rowIndex rst)
       = Row.focusedInputs rst).
Proof.
  intros Hpm Hpc Hrm Hrc. split.
  - unfold Pie.valuesEffect. rewrite Hpm, Hpc. simpl.
    split; [| split; [| split; [| by split]]].
    + intros index q Hv Hq Hnf Hnh. apply lookup_union_Some_l.
      rewrite (pie_new_refreshed _ _ _ 0 ∅ index (Num q)) by done.
      by rewrite displayOf_number.
    + intros index value Hv Hb Hnf Hnh. apply lookup_union_Some_l.
      rewrite (pie_new_refreshed _ _ _ 0 ∅ index value) by done.
      by rewrite displayOf_blank.
    + intros index Hcase. apply lookup_union_r.
      destruct Hcase as [Hf | [Hh | Hlen]].
      * by rewrite pie_new_focused.
      * by rewrite pie_new_hole.
      * by rewrite pie_new_beyond.
  - unfold Row.seriesEffect. rewrite Hrm, Hrc. simpl.
    split; [| split; [| split; [| done]]].
    + intros seriesIndex s q Hs Hv Hq Hnf. apply lookup_union_Some_l.
      rewrite (row_new_refreshed _ _ _ 0 ∅ seriesIndex s) by done.
      replace (at_index (s_values s) rowIndex) with (Num q)
        by (unfold at_index; by rewrite Hv).
      by rewrite displayOf_number.
    + intros seriesIndex s Hs Hb Hnf. apply lookup_union_Some_l.
      rewrite (row_new_refreshed _ _ _ 0 ∅ seriesIndex s) by done.
      by rewrite displayOf_blank.
    + intros k Hf. apply lookup_union_r.
      by rewrite row_new_focused.
Qed.

End WithBuiltins.

Lemma pie_editor_commits_no_negative_witness :
  sentNonNegative
    (Pie.handleValueChange (pieChart [Num 3; Num 4]) 5 "-12" pieEditing)
  ∧ sentNonNegative
      (Pie.handleValueBlur (pieChart [Num 3; Num 4]) 5 pieEditing).
Proof.
  apply (pie_editor_commits_no_negative (pieChart [Num 3; Num 4]) 5 "-12"
           pieEditing).
  - repeat constructor; discriminate.
  - constructor.
Defined.

Lemma pie_mount_shows_committed_values_witness :
  (∀ index q,
     default [] (Pie.values sparsePie) !! index = Some (Num q) →
     ¬ (q == 0)%Q → index ∉ Pie.holes sparsePie →
     Pie.displayValues (Pie.mountEffect sparsePie pieUnmounted) !! index
     = Some (numberToString q))
  ∧ (∀ index value,
       default [] (Pie.values sparsePie) !! index = Some value →
       blank value → index ∉ Pie.holes sparsePie →
       Pie.displayValues (Pie.mountEffect sparsePie pieUnmounted) !! index
       = Some "")
  ∧ (∀ index,
       index ∈ Pie.holes sparsePie
       ∨ length (default [] (Pie.values sparsePie)) ≤ index →
       Pie.displayValues (Pie.mountEffect sparsePie pieUnmounted) !! index
       = None)
  ∧ Pie.prevValuesRef (Pie.mountEffect sparsePie pieUnmounted)
    = Some (default [] (Pie.values sparsePie))
  ∧ Pie.mountEffect (pieChart [Num 9])
      (Pie.mountEffect sparsePie pieUnmounted)
    = Pie.mountEffect sparsePie pieUnmounted.
Proof.
  apply (pie_mount_shows_committed_values sparsePie (pieChart [Num 9])
           pieUnmounted).
  reflexivity.
Defined.

Lemma update_effect_refreshes_entries_witness :
  let ss := [ {| s_name := "A"; s_values := array_set [Num 3] 2 (Num 5) |} ] in
  ((∀ index q,
      default [] (Pie.values sparsePie) !! index = Some (Num q) →
      ¬ (q == 0)%Q →
      index ∉ Pie.focusedInputs pieShowing → index ∉ Pie.holes sparsePie →
      Pie.displayValues (Pie.valuesEffect sparsePie pieShowing) !! index
      = Some (numberToString q))
   ∧ (∀ index value,
        default [] (Pie.values sparsePie) !! index = Some value →
        blank value →
        index ∉ Pie.focusedInputs pieShowing → index ∉ Pie.holes sparsePie →
        Pie.displayValues (Pie.valuesEffect sparsePie pieShowing) !! index
        = Some "")
   ∧ (∀ index,
        index ∈ Pie.focusedInputs pieShowing ∨ index ∈ Pie.holes sparsePie
        ∨ length (default [] (Pie.values sparsePie)) ≤ index →
        Pie.displayValues (Pie.valuesEffect sparsePie pieShowing) !! index
        = Pie.displayValues pieShowing !! index)
   ∧ Pie.focusedInputs (Pie.valuesEffect sparsePie pieShowing)
     = Pie.focusedInputs pieShowing
   ∧ Pie.prevValuesRef (Pie.valuesEffect sparsePie pieShowing)
     = Some (default [] (Pie.values sparsePie)))
  ∧ ((∀ seriesIndex s q,
        ss !! seriesIndex = Some s →
        s_values s !! 1 = Some (Num q) → ¬ (q == 0)%Q →
        Row.key seriesIndex 1 ∉ Row.focusedInputs rowShowing →
        Row.displayValues (Row.seriesEffect ss 1 rowShowing)
          !! Row.key seriesIndex 1
        = Some (numberToString q))
     ∧ (∀ seriesIndex s,
          ss !! seriesIndex = Some s →
          blank (at_index (s_values s) 1) →
          Row.key seriesIndex 1 ∉ Row.focusedInputs rowShowing →
          Row.displayValues (Row.seriesEffect ss 1 rowShowing)
            !! Row.key seriesIndex 1
          = Some "")
     ∧ (∀ k,
          k ∈ Row.focusedInputs rowShowing →
          Row.displayValues (Row.seriesEffect ss 1 rowShowing) !! k
          = Row.displayValues rowShowing !! k)
     ∧ Row.focusedInputs (Row.seriesEffect ss 1 rowShowing)
       = Row.focusedInputs rowShowing).
Proof.
  intros ss.
  apply (update_effect_refreshes_entries sparsePie pieShowing ss 1
           rowShowing); reflexivity.
Defined.


End FieldExtra.
